(** * FB-Kiosk: the cart and validation core of [main.py]

    A shallow embedding of class [Cart] and of [validate_order_fields],
    with the properties of the specification proved about it.

    Python lists are mutable objects: the model keeps them in a store
    indexed by references, and every method is a computation over that
    store which either returns a value or raises. *)

From Stdlib Require Import ZArith Ascii String DecimalString.
From Stdlib Require DecimalPos Sorted.
From stdpp Require Import base numbers list strings gmap.

Local Open Scope string_scope.
Local Open Scope list_scope.
Local Open Scope Z_scope.

(** ** Python values *)

(** A cart line is the tuple [(name, quantity)]; tuples are immutable. *)
Abbreviation CartLine := (string * Z)%type.

(** References to list objects. *)
Abbreviation loc := positive.

(** The store: the list objects alive in the interpreter. *)
Abbreviation heap := (gmap loc (list CartLine)).

(** The exceptions the modelled code can meet. [DanglingReference] is not
    a Python exception: it is the outcome of using a reference the store
    does not hold, which no object built by [__init__] ever does. *)
Inductive exn := IndexError | ValueError | DanglingReference.

Inductive outcome (A : Type) :=
| Ret (a : A)
| Raise (e : exn).
Arguments Ret {A} a.
Arguments Raise {A} e.

(** A Python computation: store in, outcome and store out.  A raised
    exception keeps the store as it was when it was raised. *)
Definition Py (A : Type) : Type := heap → outcome A * heap.

#[global] Instance Py_ret : MRet Py := λ A a h, (Ret a, h).
#[global] Instance Py_bind : MBind Py := λ A B k m h,
  match m h with
  | (Ret a, h') => k a h'
  | (Raise e, h') => (Raise e, h')
  end.

Definition raise {A} (e : exn) : Py A := λ h, (Raise e, h).

(** ** List objects *)

(** [[]] and [list(xs)]: a new object at a reference the store does not
    hold yet. *)
Definition alloc (xs : list CartLine) : Py loc := λ h,
  let r := fresh (dom h) in (Ret r, <[r := xs]> h).

(** The elements of the list object at [l], as iteration sees them. *)
Definition list_read (l : loc) : Py (list CartLine) := λ h,
  match h !! l with
  | Some xs => (Ret xs, h)
  | None => (Raise DanglingReference, h)
  end.

Definition list_write (l : loc) (xs : list CartLine) : Py unit := λ h,
  (Ret tt, <[l := xs]> h).

(** [list(l)] *)
Definition list_copy (l : loc) : Py loc :=
  xs ← list_read l; alloc xs.

(** [len(l)] *)
Definition list_len (l : loc) : Py Z :=
  xs ← list_read l; mret (Z.of_nat (length xs)).

(** [l.append(x)] *)
Definition list_append (l : loc) (x : CartLine) : Py unit :=
  xs ← list_read l; list_write l (xs ++ [x]).

(** [l[i]] for an index [i >= 0] *)
Definition list_getitem (l : loc) (i : nat) : Py CartLine :=
  xs ← list_read l;
  match xs !! i with
  | Some x => mret x
  | None => raise IndexError
  end.

(** [l[i] = x] for an index [i >= 0] *)
Definition list_setitem (l : loc) (i : nat) (x : CartLine) : Py unit :=
  xs ← list_read l;
  if decide (i < length xs)%nat then list_write l (<[i := x]> xs)
  else raise IndexError.

(** [l.pop(i)] for an index [i >= 0] *)
Definition list_pop (l : loc) (i : nat) : Py CartLine :=
  xs ← list_read l;
  match xs !! i with
  | Some x => list_write l (delete i xs);; mret x
  | None => raise IndexError
  end.

(** [l.clear()] *)
Definition list_clear (l : loc) : Py unit :=
  list_read l;; list_write l [].

(** ** Strings and integers *)

(** Python strings are sequences of code points.  The model covers the
    code points U+0000 to U+00FF, one [ascii] each, so that the built-ins
    below are exact tables and compute. *)

(** [str(n)] for an integer: decimal digits, with a minus sign when
    negative. *)
Definition str_int (z : Z) : string := NilZero.string_of_int (Z.to_int z).

Definition code (c : ascii) : N := N_of_ascii c.

(** [c.isspace()]: tab to carriage return, the four separators
    U+001C..U+001F, space, U+0085 and U+00A0. *)
Definition isspace (c : ascii) : bool :=
  ((9 <=? code c) && (code c <=? 13) || (28 <=? code c) && (code c <=? 32)
   || (code c =? 133) || (code c =? 160))%N.

(** [c.isdecimal()]: the digits an integer literal is made of. *)
Definition isdecimal (c : ascii) : bool :=
  ((48 <=? code c) && (code c <=? 57))%N.

(** [c.isdigit()]: the decimal digits and the superscripts U+00B2, U+00B3
    and U+00B9. *)
Definition isdigit (c : ascii) : bool :=
  isdecimal c || (code c =? 178)%N || (code c =? 179)%N || (code c =? 185)%N.

Fixpoint lstrip (s : string) : string :=
  match s with
  | String c rest => if isspace c then lstrip rest else s
  | EmptyString => EmptyString
  end.

Fixpoint rstrip (s : string) : string :=
  match s with
  | EmptyString => EmptyString
  | String c rest =>
      match rstrip rest with
      | EmptyString => if isspace c then EmptyString else String c EmptyString
      | kept => String c kept
      end
  end.

(** [s.strip()] *)
Definition strip (s : string) : string := rstrip (lstrip s).

Fixpoint forall_chars (p : ascii → bool) (s : string) : bool :=
  match s with
  | EmptyString => true
  | String c rest => p c && forall_chars p rest
  end.

(** [bool(s)]: a string is true when it is not empty. *)
Definition truthy (s : string) : bool :=
  match s with EmptyString => false | String _ _ => true end.

(** [s.isdigit()]: at least one character, and all of them digits. *)
Definition str_isdigit (s : string) : bool :=
  truthy s && forall_chars isdigit s.

(** The digits of an integer literal in base ten: decimal digits, with
    single underscores allowed between two of them.  [after_digit] tells
    whether the character before was a digit. *)
Fixpoint parse_digits (acc : Z) (after_digit : bool) (s : string) : option Z :=
  match s with
  | EmptyString => if after_digit then Some acc else None
  | String c rest =>
      if isdecimal c
      then parse_digits (10 * acc + (Z.of_N (code c) - 48)) true rest
      else if Ascii.eqb c "_" && after_digit then parse_digits acc false rest
      else None
  end.

(** [int(s)] for a string: surrounding whitespace is dropped, a sign may
    come first; [None] stands for [ValueError].  (The interpreter's
    optional limit on the number of digits is not part of the model.) *)
Definition int_of_str (s : string) : option Z :=
  match strip s with
  | String "+" rest => parse_digits 0 false rest
  | String "-" rest => Z.opp <$> parse_digits 0 false rest
  | t => parse_digits 0 false t
  end.

Definition int (s : string) : Py Z :=
  match int_of_str s with
  | Some z => mret z
  | None => raise ValueError
  end.

(** The values [validate_order_fields] is called with as [quantity]. *)
Inductive pyval :=
| PyInt (z : Z)
| PyStr (s : string).

(** [str(v)] *)
Definition str (v : pyval) : string :=
  match v with
  | PyInt z => str_int z
  | PyStr s => s
  end.

(** U+00B2, SUPERSCRIPT TWO. *)
Definition superscript_two : ascii := ascii_of_N 178.

(** ** class Cart *)

(** A [Cart] object.  Its two attributes are bound in [__init__] and never
    rebound anywhere in the program, so the object is the pair of their
    values; the list [_items] refers to lives in the store. *)
Record Cart := { _items : loc; max_per_item : Z }.

Definition __init__ (max_per_item : Z) : Py Cart :=
  l ← alloc [];
  mret {| _items := l; max_per_item := max_per_item |}.

Definition to_list (self : Cart) : Py loc :=
  list_copy (_items self).

(** The loop of [find_index]: [enumerate] counts from [i]. *)
Fixpoint find_index_from (i : nat) (items : list CartLine) (name : string)
  : option nat :=
  match items with
  | [] => None
  | (n, q) :: rest =>
      if String.eqb n name then Some i
      else find_index_from (S i) rest name
  end.

Definition find_index (self : Cart) (name : string) : Py (option nat) :=
  items ← list_read (_items self);
  mret (find_index_from 0 items name).

Definition add_item (self : Cart) (name : string) (qty : Z)
  : Py (bool * string) :=
  if qty <? 1 then mret (false, "Quantity must be at least 1.")
  else
    idx ← find_index self name;
    match idx with
    | None =>
        let capped := Z.min qty (max_per_item self) in
        list_append (_items self) (name, capped);;
        if qty >? max_per_item self
        then mret (true, "Added (capped at " +:+ str_int (max_per_item self) +:+ ").")
        else mret (true, "Added.")
    | Some idx =>
        line ← list_getitem (_items self) idx;
        let existing_qty := line.2 in
        let new_qty := Z.min (existing_qty + qty) (max_per_item self) in
        list_setitem (_items self) idx (name, new_qty);;
        if existing_qty + qty >? max_per_item self
        then mret (true, "Updated (capped at " +:+ str_int (max_per_item self) +:+ ").")
        else mret (true, "Updated.")
    end.

Definition remove_item (self : Cart) (name : string) : Py bool :=
  idx ← find_index self name;
  match idx with
  | Some idx => list_pop (_items self) idx;; mret true
  | None => mret false
  end.

Definition adjust_quantity (self : Cart) (name : string) (qty : Z)
  : Py (bool * string) :=
  idx ← find_index self name;
  match idx with
  | None => mret (false, "Item not in cart.")
  | Some idx =>
      if (qty <? 1) || (qty >? max_per_item self)
      then mret (false, "Quantity must be between 1 and "
                          +:+ str_int (max_per_item self) +:+ ".")
      else
        list_setitem (_items self) idx (name, qty);;
        mret (true, "Quantity updated.")
  end.

Definition clear (self : Cart) : Py unit :=
  list_clear (_items self).

Definition is_empty (self : Cart) : Py bool :=
  n ← list_len (_items self); mret (n =? 0).

(** ** Validation *)

Section Validation.

(** The module-level variable [cart], which [validate_order_fields]
    reads: the function is taken over every cart it may be bound to. *)
Variable cart : Cart.

(** [item_name] is a string, on which [str(item_name)] is the identity. *)
Definition validate_order_fields (item_name : string) (quantity : pyval)
  : Py (bool * string) :=
  if negb (truthy item_name) || negb (truthy (strip item_name))
  then mret (false, "Item name is required.")
  else
    let q_str := strip (str quantity) in
    if negb (str_isdigit q_str)
    then mret (false, "Quantity must be a whole number.")
    else
      q ← int q_str;
      if q <=? 0 then mret (false, "Quantity must be greater than zero.")
      else if q >? max_per_item cart
      then mret (false, "Quantity must be no more than "
                          +:+ str_int (max_per_item cart) +:+ ".")
      else mret (true, "").

End Validation.

(** [cart = Cart(max_per_item=10)], the first object the module makes:
    its list sits at the first reference of the store. *)
Definition cart : Cart := {| _items := 1; max_per_item := 10 |}.

(** ** The validation in the words of the specification *)

(** A string that consists solely of decimal digits. *)
Definition decimal_digits (s : string) : bool :=
  truthy s && forall_chars isdecimal s.

(** The integer such a string denotes. *)
Fixpoint decimal_value (acc : Z) (s : string) : Z :=
  match s with
  | EmptyString => acc
  | String c rest => decimal_value (10 * acc + (Z.of_N (code c) - 48)) rest
  end.

(** The four checks, in their order, for a cap [M]. *)
Definition validate_order_fields_spec (M : Z) (item_name : string)
    (quantity : pyval) : bool * string :=
  if negb (truthy (strip item_name)) then (false, "Item name is required.")
  else
    let q_str := strip (str quantity) in
    if negb (decimal_digits q_str) then (false, "Quantity must be a whole number.")
    else
      let q := decimal_value 0 q_str in
      if q <=? 0 then (false, "Quantity must be greater than zero.")
      else if q >? M
      then (false, "Quantity must be no more than " +:+ str_int M +:+ ".")
      else (true, "").

(** A string without the digits that are not decimal. *)
Definition no_superscript (s : string) : bool :=
  forall_chars (λ c, isdecimal c || negb (isdigit c)) s.

(** ** Sessions: sequences of calls on one cart *)

Inductive call :=
| AddItem (name : string) (qty : Z)
| RemoveItem (name : string)
| AdjustQuantity (name : string) (qty : Z)
| Clear.

Definition do_call (self : Cart) (c : call) : Py unit :=
  match c with
  | AddItem name qty => add_item self name qty;; mret tt
  | RemoveItem name => remove_item self name;; mret tt
  | AdjustQuantity name qty => adjust_quantity self name qty;; mret tt
  | Clear => clear self
  end.

Fixpoint do_calls (self : Cart) (cs : list call) : Py unit :=
  match cs with
  | [] => mret tt
  | c :: rest => do_call self c;; do_calls self rest
  end.

(** [self = Cart(max_per_item=M)] followed by the calls [cs] on [self]. *)
Definition session (M : Z) (cs : list call) : Py Cart :=
  self ← __init__ M; do_calls self cs;; mret self.

(** The calls that take a quantity. *)
Definition adds_or_adjusts (c : call) : Prop :=
  match c with
  | AddItem _ _ | AdjustQuantity _ _ => True
  | RemoveItem _ | Clear => False
  end.

(** ** What a client can do to a list it was handed *)

Inductive mutation :=
| Append (x : CartLine)
| SetItem (i : nat) (x : CartLine)
| Pop (i : nat)
| ClearAll.

Definition mutate (l : loc) (m : mutation) : Py unit :=
  match m with
  | Append x => list_append l x
  | SetItem i x => list_setitem l i x
  | Pop i => list_pop l i;; mret tt
  | ClearAll => list_clear l
  end.

(** An exception in one mutation is caught by the client, which goes on. *)
Fixpoint mutate_all (l : loc) (ms : list mutation) : heap → heap :=
  λ h, match ms with
       | [] => h
       | m :: rest => mutate_all l rest (mutate l m h).2
       end.

(** ** The invariants of the data model *)

(** I1: no two lines share a name. *)
Definition unique_names (items : list CartLine) : Prop := NoDup items.*1.

(** The lines of a cart that carry a given name. *)
Definition lines_named (name : string) (items : list CartLine) : list CartLine :=
  filter (λ line : CartLine, line.1 = name) items.

(** The lines of a cart that carry another name, in their order. *)
Definition other_lines (name : string) (items : list CartLine) : list CartLine :=
  filter (λ line : CartLine, line.1 ≠ name) items.

(** A name that the existence check of the validation turns down. *)
Definition blank (name : string) : Prop := truthy (strip name) = false.

(** I2: every quantity lies in [1, M]. *)
Definition within_cap (M : Z) (items : list CartLine) : Prop :=
  Forall (λ line : CartLine, 1 ≤ line.2 ≤ M) items.

(** The two messages that report capping. *)
Definition capped_message (M : Z) (msg : string) : Prop :=
  msg = "Added (capped at " +:+ str_int M +:+ ")."
  ∨ msg = "Updated (capped at " +:+ str_int M +:+ ").".

(** ** Reading a cart *)

(** The quantity a name has in the cart: that of its first line, and
    nothing when it has no line. *)
Definition quantity_of (name : string) (items : list CartLine) : Z :=
  match find_index_from 0 items name with
  | Some i => from_option snd 0 (items !! i)
  | None => 0
  end.

(** ** The screens *)

(** The handlers of the screens are modelled on the state of the widgets
    they read and write: the value of an [IntVar], the text of a label or
    button, the rows of a frame, whether a window is still there.  Colours,
    fonts and layout are no part of that state. *)

(** U+00D7, MULTIPLICATION SIGN. *)
Definition times_sign : ascii := ascii_of_N 215.

(** *** The quantity popup of the item list *)

Module QuantityPopup.

Record widgets := {
  qty_var : Z;
  warning_label : string;
  feedback_label : string;
  parent_button : string;
  qty_window : bool
}.

(** [open_quantity_popup]: the popup starts at quantity 1 with no
    warning; the feedback label and the button belong to the item list. *)
Definition open_quantity_popup (feedback button : string) : widgets :=
  {| qty_var := 1; warning_label := "";
     feedback_label := feedback; parent_button := button;
     qty_window := true |}.

Section Handlers.
Variable cart : Cart.

Definition increase (w : widgets) : widgets :=
  if qty_var w <? max_per_item cart
  then {| qty_var := qty_var w + 1; warning_label := "";
          feedback_label := feedback_label w; parent_button := parent_button w;
          qty_window := qty_window w |}
  else {| qty_var := qty_var w;
          warning_label := "Max limit is " +:+ str_int (max_per_item cart)
                             +:+ " per item.";
          feedback_label := feedback_label w; parent_button := parent_button w;
          qty_window := qty_window w |}.

Definition decrease (w : widgets) : widgets :=
  if qty_var w >? 1
  then {| qty_var := qty_var w - 1; warning_label := "";
          feedback_label := feedback_label w; parent_button := parent_button w;
          qty_window := qty_window w |}
  else w.

Definition confirm (name : string) (w : widgets) : Py widgets :=
  let q := qty_var w in
  checked ← validate_order_fields cart name (PyInt q);
  let '(valid, msg) := checked in
  if negb valid
  then mret {| qty_var := qty_var w; warning_label := msg;
               feedback_label := feedback_label w;
               parent_button := parent_button w; qty_window := qty_window w |}
  else
    added ← add_item cart name q;
    mret {| qty_var := qty_var w; warning_label := warning_label w;
            feedback_label := str_int q +:+ " " +:+ String times_sign " "
                                +:+ name +:+ " added to cart!";
            parent_button := "Added!"; qty_window := false |}.

(** The two buttons of the popup. *)
Inductive button := Plus | Minus.

Definition press (w : widgets) (b : button) : widgets :=
  match b with
  | Plus => increase w
  | Minus => decrease w
  end.

Definition presses (bs : list button) (w : widgets) : widgets :=
  foldl press w bs.

End Handlers.
End QuantityPopup.

(** *** The cart window *)

Module OrderWindow.

(** What [refresh_cart] puts into the cart frame: the notice of an empty
    cart, or one row per line, whose two buttons remember the index and
    the name of their line. *)
Inductive child :=
| Notice (text : string)
| Row (text : string) (i : nat) (n : string).

Record widgets := {
  cart_frame : list child;
  message_label : string
}.

Definition children (items : list CartLine) : list child :=
  match items with
  | [] => [Notice "Cart is empty."]
  | _ => imap (λ idx line, Row (line.1 +:+ " x " +:+ str_int line.2) idx line.1)
              items
  end.

Section Handlers.
Variable cart : Cart.

Definition refresh_cart (w : widgets) : Py widgets :=
  l ← to_list cart;
  items ← list_read l;
  mret {| cart_frame := children items; message_label := message_label w |}.

Definition on_remove (i : nat) (n : string) (w : widgets) : Py widgets :=
  removed ← remove_item cart n;
  w' ← refresh_cart w;
  if (removed : bool)
  then mret {| cart_frame := cart_frame w'; message_label := n +:+ " removed." |}
  else mret w'.

(** [answer] is what the customer replies to "Submit your order?". *)
Definition submit_order_action (answer : bool) (w : widgets) : Py widgets :=
  empty ← is_empty cart;
  if (empty : bool)
  then mret {| cart_frame := cart_frame w; message_label := "Cart is empty!" |}
  else if negb answer then mret w
  else
    clear cart;;
    w' ← refresh_cart w;
    mret {| cart_frame := cart_frame w';
            message_label := "Your order has been submitted!" |}.

End Handlers.
End OrderWindow.

(** *** The popup that adjusts a quantity *)

Module AdjustPopup.

Record widgets := {
  qty_var : Z;
  alert : string;
  adj_win : bool
}.

Section Handlers.
Variable cart : Cart.

(** [on_adjust] of the row with index [i]: the popup starts at the
    quantity the cart has at that index. *)
Definition on_adjust (i : nat) (n : string) : Py widgets :=
  l ← to_list cart;
  line ← list_getitem l i;
  mret {| qty_var := line.2; alert := ""; adj_win := true |}.

Definition inc (a : widgets) : widgets :=
  if qty_var a <? max_per_item cart
  then {| qty_var := qty_var a + 1; alert := ""; adj_win := adj_win a |}
  else {| qty_var := qty_var a;
          alert := "Max is " +:+ str_int (max_per_item cart);
          adj_win := adj_win a |}.

Definition dec (a : widgets) : widgets :=
  if qty_var a >? 1
  then {| qty_var := qty_var a - 1; alert := ""; adj_win := adj_win a |}
  else a.

Definition confirm_adj (n : string) (a : widgets) (w : OrderWindow.widgets)
  : Py (widgets * OrderWindow.widgets) :=
  adjusted ← adjust_quantity cart n (qty_var a);
  let '(ok, msg) := adjusted in
  if negb ok
  then mret ({| qty_var := qty_var a; alert := msg; adj_win := adj_win a |}, w)
  else
    w' ← OrderWindow.refresh_cart cart w;
    mret ({| qty_var := qty_var a; alert := alert a; adj_win := false |},
          {| OrderWindow.cart_frame := OrderWindow.cart_frame w';
             OrderWindow.message_label := n +:+ " quantity updated." |}).

Inductive button := Plus | Minus.

Definition press (a : widgets) (b : button) : widgets :=
  match b with
  | Plus => inc a
  | Minus => dec a
  end.

Definition presses (bs : list button) (a : widgets) : widgets :=
  foldl press a bs.

End Handlers.
End AdjustPopup.

(** *** The catalogue and the item list *)

(** [c.lower()] on the code points of the model: the capital letters A to
    Z and U+00C0 to U+00DE, but for the sign U+00D7, move up by 32. *)
Definition lower_char (c : ascii) : ascii :=
  if ((65 <=? code c) && (code c <=? 90)
      || (192 <=? code c) && (code c <=? 222) && negb (code c =? 215))%N
  then ascii_of_N (code c + 32)
  else c.

(** [s.lower()] *)
Fixpoint lower (s : string) : string :=
  match s with
  | EmptyString => EmptyString
  | String c rest => String (lower_char c) (lower rest)
  end.

Fixpoint startswith (s p : string) : bool :=
  match p, s with
  | EmptyString, _ => true
  | String _ _, EmptyString => false
  | String a p', String b s' => Ascii.eqb a b && startswith s' p'
  end.

(** [p in s] for two strings *)
Fixpoint contains (s p : string) : bool :=
  startswith s p
  || match s with
     | EmptyString => false
     | String _ rest => contains rest p
     end.

Module Catalog.

(** The value of a field of a row as [csv.DictReader] gives it: a string,
    or [None] for a cell that the line of the file does not have. *)
Inductive field :=
| NoneField
| Str (s : string).

(** A row: a dict from column names to fields. *)
Abbreviation row := (gmap string field).

(** [d.setdefault(key, '')], for what it does to [d] *)
Definition setdefault (key : string) (d : row) : row :=
  match d !! key with
  | Some _ => d
  | None => <[key := Str ""]> d
  end.

(** [load_items], on what opening the file and [list(csv.DictReader(f))]
    give: the rows, or [None] when either raises.  The messages it prints
    are not modelled. *)
Definition load_items (read : option (list row)) : list row :=
  match read with
  | Some items =>
      (λ r, setdefault "tag" (setdefault "category" (setdefault "name" r)))
        <$> items
  | None => []
  end.

(** [d.get(key, default)] *)
Definition get (d : row) (key : string) (default : field) : field :=
  match d !! key with
  | Some v => v
  | None => default
  end.

(** [v.lower()]: [None] has no such method, the call raises
    [AttributeError], for which the model returns [None]. *)
Definition lower_of (v : field) : option string :=
  match v with
  | Str s => Some (lower s)
  | NoneField => None
  end.

(** [bool(v)] *)
Definition field_truthy (v : field) : bool :=
  match v with
  | Str s => truthy s
  | NoneField => false
  end.

(** [v == s] for a string [s] *)
Definition field_is (v : field) (s : string) : bool :=
  match v with
  | Str t => String.eqb t s
  | NoneField => false
  end.

(** [str(v)], as an f-string formats it *)
Definition field_text (v : field) : string :=
  match v with
  | Str s => s
  | NoneField => "None"
  end.

(** The value of the sort menu: it holds one of its two entries. *)
Inductive sort_choice := AtoZ | ZtoA.

Section RenderItems.
Variables (keyword selected_category selected_diet : string).

(** The condition of the comprehension, with the order in which [or] and
    [and] evaluate their operands. *)
Definition shown (item : row) : option bool :=
  name ← lower_of (get item "name" (Str ""));
  in_text ← (if contains name keyword then Some true
             else category ← lower_of (get item "category" (Str ""));
                  Some (contains category keyword));
  if negb in_text then Some false
  else if negb (String.eqb selected_category "All"
                || field_is (get item "category" (Str "")) selected_category)
  then Some false
  else if String.eqb selected_diet "All" then Some true
  else if field_truthy (get item "tag" NoneField)
  then tag ← lower_of (get item "tag" NoneField);
       Some (String.eqb tag (lower selected_diet))
  else Some false.

(** The comprehension: the rows are tested in their order, and the first
    test that raises ends it. *)
Fixpoint comprehension (items : list row) : option (list row) :=
  match items with
  | [] => Some []
  | item :: rest =>
      keep ← shown item;
      kept ← comprehension rest;
      Some (if (keep : bool) then item :: kept else kept)
  end.

End RenderItems.

(** The key of the two sorts. *)
Definition sort_key (x : row) : option string :=
  lower_of (get x "name" (Str "")).

(** [list.sort] is stable: of two rows with equal keys the one that came
    first stays first, also with [reverse=True].  [insert_sorted] puts a
    row in front of the sorted rows that came after it. *)
Definition before (order : sort_choice) (k1 k2 : string) : bool :=
  match order with
  | AtoZ => String.ltb k1 k2
  | ZtoA => String.ltb k2 k1
  end.

Fixpoint insert_sorted (order : sort_choice) (x : string * row)
    (l : list (string * row)) : list (string * row) :=
  match l with
  | [] => [x]
  | y :: rest =>
      if before order y.1 x.1 then y :: insert_sorted order x rest
      else x :: y :: rest
  end.

Fixpoint stable_sort (order : sort_choice) (l : list (string * row))
  : list (string * row) :=
  match l with
  | [] => []
  | x :: rest => insert_sorted order x (stable_sort order rest)
  end.

(** [filtered.sort(key=..., reverse=...)]: the keys are computed first,
    one per row. *)
Definition sort (order : sort_choice) (filtered : list row) : option (list row) :=
  keyed ← mapM (λ x, k ← sort_key x; Some (k, x)) filtered;
  Some (stable_sort order keyed).*2.

(** What [render_items] puts into the list frame: the notice, or one
    entry per row with the texts of its two labels and the name its "Add"
    button passes on. *)
Inductive child :=
| Notice (text : string)
| Item (label details nm : string).

Definition render_row (item_row : row) : option child :=
  let item_name := get item_row "name" (Str "") in
  name_lower ← lower_of item_name;
  let details_text := "Category: " +:+ field_text (get item_row "category" (Str "")) in
  let details_text :=
    if field_truthy (get item_row "tag" NoneField)
    then details_text +:+ "    Diet: " +:+ field_text (get item_row "tag" NoneField)
    else details_text in
  Some (Item (field_text item_name) details_text (field_text item_name)).

(** [render_items], on the rows [load_items] returned and the values of
    the search box and the three menus: what it puts into the list frame,
    or [None] when it raises.  It first empties the feedback label, which
    is left out here. *)
Definition render_items (items : list row) (search : string)
    (sort_by : sort_choice) (selected_category selected_diet : string)
  : option (list child) :=
  let keyword := lower (strip search) in
  filtered ← comprehension keyword selected_category selected_diet items;
  filtered ← sort sort_by filtered;
  match filtered with
  | [] => Some [Notice "No items found."]
  | _ => mapM render_row filtered
  end.

End Catalog.

(** A row whose name and category are strings, as every line of the file
    with at least two cells gives. *)
Definition has_texts (item : Catalog.row) : Prop :=
  is_Some (Catalog.lower_of (Catalog.get item "name" (Catalog.Str "")))
  ∧ is_Some (Catalog.lower_of (Catalog.get item "category" (Catalog.Str ""))).

(** The order of two sort keys under a choice of the sort menu. *)
Definition in_order (order : Catalog.sort_choice) (k1 k2 : string) : Prop :=
  match order with
  | Catalog.AtoZ => String.leb k1 k2 = true
  | Catalog.ZtoA => String.leb k2 k1 = true
  end.

(** * Properties *)

(** ** The built-ins on concrete inputs *)

Example str_int_10 : str_int 10 = "10".
Proof. reflexivity. Qed.
Example str_int_neg : str_int (-305) = "-305".
Proof. reflexivity. Qed.
Example str_int_0 : str_int 0 = "0".
Proof. reflexivity. Qed.
Example strip_ex : strip "  12 3 " = "12 3".
Proof. reflexivity. Qed.
Example int_ex1 : int_of_str " -1_000 " = Some (-1000).
Proof. reflexivity. Qed.
Example int_ex2 : int_of_str "1__0" = None ∧ int_of_str "12_" = None
  ∧ int_of_str "" = None ∧ int_of_str "- 5" = None ∧ int_of_str "007" = Some 7.
Proof. repeat split; reflexivity. Qed.
Example isdigit_ex : str_isdigit "15" = true ∧ str_isdigit "-5" = false
  ∧ str_isdigit "" = false ∧ str_isdigit "3.0" = false
  ∧ str_isdigit (String superscript_two "") = true.
Proof. repeat split; reflexivity. Qed.

(** ** Scenarios of the specification *)

(** Scenario A, run on the empty store. *)
Example scenario_A :
  (self ← __init__ 10; r ← add_item self "Apple" 1;
   l ← to_list self; xs ← list_read l; mret (r, xs)) ∅
  = (Ret ((true, "Added."), [("Apple", 1)]),
     {[ 1%positive := [("Apple", 1)]; 2%positive := [("Apple", 1)] ]}).
Proof. vm_compute. reflexivity. Qed.

Example module_cart : __init__ 10 ∅ = (Ret cart, {[ 1%positive := [] ]}).
Proof. vm_compute. reflexivity. Qed.

Example scenario_B :
  add_item cart "Apple" 5 {[ 1%positive := [("Apple", 8)] ]}
  = (Ret (true, "Updated (capped at 10)."), {[ 1%positive := [("Apple", 10)] ]}).
Proof. vm_compute. reflexivity. Qed.

Example scenario_C :
  (self ← __init__ 10; adjust_quantity self "Banana" 3) ∅
  = (Ret (false, "Item not in cart."), {[ 1%positive := [] ]}).
Proof. vm_compute. reflexivity. Qed.

Example scenario_D h :
  validate_order_fields cart "" (PyStr "3") h
  = (Ret (false, "Item name is required."), h).
Proof. reflexivity. Qed.

Example scenario_E h :
  validate_order_fields cart "Apple" (PyStr "15") h
  = (Ret (false, "Quantity must be no more than 10."), h).
Proof. reflexivity. Qed.

Example scenario_F :
  (self ← __init__ 10; remove_item self "Apple") ∅
  = (Ret false, {[ 1%positive := [] ]}).
Proof. vm_compute. reflexivity. Qed.

(** ** Running the primitives *)

Lemma bind_run {A B} (m : Py A) (k : A → Py B) (h : heap) :
  (m ≫= k) h = match m h with
                | (Ret a, h') => k a h'
                | (Raise e, h') => (Raise e, h')
                end.
Proof. reflexivity. Qed.

Lemma ret_run {A} (a : A) (h : heap) : (mret a : Py A) h = (Ret a, h).
Proof. reflexivity. Qed.

Section Primitives.
Context (l : loc) (h : heap) (xs : list CartLine).
Hypothesis Hl : h !! l = Some xs.

Lemma list_read_run : list_read l h = (Ret xs, h).
Proof. unfold list_read. by rewrite Hl. Qed.

Lemma list_append_run x : list_append l x h = (Ret tt, <[l := xs ++ [x]]> h).
Proof. unfold list_append. by rewrite bind_run, list_read_run. Qed.

Lemma list_getitem_run i x :
  xs !! i = Some x → list_getitem l i h = (Ret x, h).
Proof.
  intros Hi. unfold list_getitem. by rewrite bind_run, list_read_run, Hi.
Qed.

Lemma list_setitem_run i x y :
  xs !! i = Some y → list_setitem l i x h = (Ret tt, <[l := <[i := x]> xs]> h).
Proof.
  intros Hi. unfold list_setitem. rewrite bind_run, list_read_run.
  apply lookup_lt_Some in Hi. by rewrite decide_True.
Qed.

Lemma list_pop_run i x :
  xs !! i = Some x → list_pop l i h = (Ret x, <[l := delete i xs]> h).
Proof.
  intros Hi. unfold list_pop. by rewrite bind_run, list_read_run, Hi.
Qed.

Lemma list_clear_run : list_clear l h = (Ret tt, <[l := []]> h).
Proof. unfold list_clear. by rewrite bind_run, list_read_run. Qed.

Lemma list_len_run : list_len l h = (Ret (Z.of_nat (length xs)), h).
Proof. unfold list_len. by rewrite bind_run, list_read_run. Qed.

Lemma list_copy_run :
  list_copy l h = (Ret (fresh (dom h)), <[fresh (dom h) := xs]> h).
Proof. unfold list_copy. by rewrite bind_run, list_read_run. Qed.

End Primitives.

Lemma fresh_not_allocated (h : heap) : h !! fresh (dom h) = None.
Proof. apply not_elem_of_dom, is_fresh. Qed.

(** ** The linear scan *)

Lemma find_index_from_None i items name :
  find_index_from i items name = None ↔ name ∉ items.*1.
Proof.
  revert i. induction items as [|[n q] rest IH]; intros i; simpl.
  - split; [intros _; apply not_elem_of_nil | done].
  - destruct (String.eqb_spec n name) as [->|Hne].
    + split; [done | intros H; destruct H; left].
    + rewrite IH, not_elem_of_cons. intuition congruence.
Qed.

Lemma find_index_from_Some i items name j :
  find_index_from i items name = Some j ↔
  ∃ pre q post, items = pre ++ ((name, q) :: post) ∧ (name ∉ pre.*1)
                ∧ j = (i + length pre)%nat.
Proof.
  revert i. induction items as [|[n q] rest IH]; intros i; simpl.
  - split; [done | intros ([|??] & ? & ? & ? & _); done].
  - destruct (String.eqb_spec n name) as [->|Hne].
    + split.
      * intros [= <-]. exists [], q, rest. simpl.
        split_and!; [done | apply not_elem_of_nil | lia].
      * intros ([|[n' q'] pre] & q0 & post & Heq & Hpre & ->); simpl in *.
        -- f_equal. lia.
        -- injection Heq as -> -> ->. destruct Hpre. left.
    + rewrite IH. split.
      * intros (pre & q0 & post & -> & Hpre & ->).
        exists ((n, q) :: pre), q0, post. simpl.
        split_and!; [done | | lia]. rewrite not_elem_of_cons. intuition congruence.
      * intros ([|[n' q'] pre] & q0 & post & Heq & Hpre & ->); simpl in *.
        -- congruence.
        -- injection Heq as -> -> ->. exists pre, q0, post.
           split_and!; [done | | lia]. rewrite not_elem_of_cons in Hpre. tauto.
Qed.

Lemma find_index_from_first pre name q post :
  name ∉ pre.*1 →
  find_index_from 0 (pre ++ ((name, q) :: post)) name = Some (length pre).
Proof. intros Hpre. apply find_index_from_Some. by exists pre, q, post. Qed.

Lemma find_index_run self name h items :
  h !! _items self = Some items →
  find_index self name h = (Ret (find_index_from 0 items name), h).
Proof.
  intros Hl. unfold find_index. by rewrite bind_run, (list_read_run _ _ items).
Qed.

(** Where a name occurs, it has a first occurrence. *)
Lemma first_occurrence (items : list CartLine) name :
  name ∈ items.*1 →
  ∃ pre q post, items = pre ++ ((name, q) :: post) ∧ name ∉ pre.*1.
Proof.
  intros Hin. destruct (find_index_from 0 items name) as [j|] eqn:Hj.
  - apply find_index_from_Some in Hj as (pre & q & post & ? & ? & _). eauto.
  - apply find_index_from_None in Hj. done.
Qed.

(** ** Running the methods of [Cart] *)

Lemma lookup_first_occurrence (pre post : list CartLine) x :
  (pre ++ (x :: post)) !! length pre = Some x.
Proof. by apply list_lookup_middle. Qed.

Lemma insert_first_occurrence (pre post : list CartLine) x y :
  <[length pre := y]> (pre ++ (x :: post)) = pre ++ (y :: post).
Proof.
  rewrite <- (Nat.add_0_r (length pre)) at 1. by rewrite insert_app_r.
Qed.

Section Methods.
Context (self : Cart) (h : heap) (items : list CartLine).
Hypothesis Hl : h !! _items self = Some items.

Lemma add_item_rejected_run name qty :
  qty < 1 →
  add_item self name qty h = (Ret (false, "Quantity must be at least 1."), h).
Proof.
  intros Hq. unfold add_item. by rewrite (proj2 (Z.ltb_lt _ _) Hq).
Qed.

Lemma add_item_absent_run name qty :
  1 ≤ qty → name ∉ items.*1 →
  add_item self name qty h =
    (Ret (true, if qty >? max_per_item self
                then "Added (capped at " +:+ str_int (max_per_item self) +:+ ")."
                else "Added."),
     <[_items self := items ++ [(name, Z.min qty (max_per_item self))]]> h).
Proof.
  intros Hq Hn. unfold add_item.
  rewrite (proj2 (Z.ltb_ge _ _) Hq), bind_run, (find_index_run _ _ _ items Hl).
  rewrite (proj2 (find_index_from_None _ _ _) Hn).
  rewrite bind_run, (list_append_run _ _ items Hl).
  by destruct (qty >? max_per_item self).
Qed.

Lemma add_item_present_run name qty pre e post :
  1 ≤ qty → items = pre ++ ((name, e) :: post) → name ∉ pre.*1 →
  add_item self name qty h =
    (Ret (true, if e + qty >? max_per_item self
                then "Updated (capped at " +:+ str_int (max_per_item self) +:+ ")."
                else "Updated."),
     <[_items self :=
         pre ++ ((name, Z.min (e + qty) (max_per_item self)) :: post)]> h).
Proof.
  intros Hq Hitems Hn. unfold add_item.
  rewrite (proj2 (Z.ltb_ge _ _) Hq), bind_run, (find_index_run _ _ _ items Hl).
  subst items. rewrite (find_index_from_first _ _ _ _ Hn).
  rewrite bind_run, (list_getitem_run _ _ _ Hl _ _ (lookup_first_occurrence _ _ _)).
  simpl. rewrite bind_run.
  rewrite (list_setitem_run _ _ _ Hl _ _ _ (lookup_first_occurrence _ _ _)).
  rewrite insert_first_occurrence.
  by destruct (e + qty >? max_per_item self).
Qed.

Lemma remove_item_absent_run name :
  name ∉ items.*1 → remove_item self name h = (Ret false, h).
Proof.
  intros Hn. unfold remove_item.
  rewrite bind_run, (find_index_run _ _ _ items Hl).
  by rewrite (proj2 (find_index_from_None _ _ _) Hn).
Qed.

Lemma remove_item_present_run name pre e post :
  items = pre ++ ((name, e) :: post) → name ∉ pre.*1 →
  remove_item self name h = (Ret true, <[_items self := pre ++ post]> h).
Proof.
  intros Hitems Hn. unfold remove_item.
  rewrite bind_run, (find_index_run _ _ _ items Hl).
  subst items. rewrite (find_index_from_first _ _ _ _ Hn).
  rewrite bind_run, (list_pop_run _ _ _ Hl _ _ (lookup_first_occurrence _ _ _)).
  by rewrite delete_middle.
Qed.

Lemma adjust_quantity_absent_run name qty :
  name ∉ items.*1 →
  adjust_quantity self name qty h = (Ret (false, "Item not in cart."), h).
Proof.
  intros Hn. unfold adjust_quantity.
  rewrite bind_run, (find_index_run _ _ _ items Hl).
  by rewrite (proj2 (find_index_from_None _ _ _) Hn).
Qed.

Lemma adjust_quantity_range_run name qty :
  name ∈ items.*1 → qty < 1 ∨ max_per_item self < qty →
  adjust_quantity self name qty h =
    (Ret (false, "Quantity must be between 1 and "
                   +:+ str_int (max_per_item self) +:+ "."), h).
Proof.
  intros Hn Hq. unfold adjust_quantity.
  rewrite bind_run, (find_index_run _ _ _ items Hl).
  destruct (first_occurrence _ _ Hn) as (pre & e & post & Hitems & Hpre).
  rewrite Hitems, (find_index_from_first _ _ _ _ Hpre).
  destruct (Z.ltb_spec qty 1), (Z.gtb_spec qty (max_per_item self));
    simpl; (done || lia).
Qed.

Lemma adjust_quantity_present_run name qty pre e post :
  1 ≤ qty ≤ max_per_item self →
  items = pre ++ ((name, e) :: post) → name ∉ pre.*1 →
  adjust_quantity self name qty h =
    (Ret (true, "Quantity updated."),
     <[_items self := pre ++ ((name, qty) :: post)]> h).
Proof.
  intros Hq Hitems Hn. unfold adjust_quantity.
  rewrite bind_run, (find_index_run _ _ _ items Hl).
  subst items. rewrite (find_index_from_first _ _ _ _ Hn).
  destruct (Z.ltb_spec qty 1), (Z.gtb_spec qty (max_per_item self));
    simpl; try lia.
  rewrite bind_run.
  rewrite (list_setitem_run _ _ _ Hl _ _ _ (lookup_first_occurrence _ _ _)).
  by rewrite insert_first_occurrence.
Qed.

Lemma clear_run : clear self h = (Ret tt, <[_items self := []]> h).
Proof. unfold clear. by apply list_clear_run with items. Qed.

Lemma to_list_run :
  to_list self h = (Ret (fresh (dom h)), <[fresh (dom h) := items]> h).
Proof. unfold to_list. by apply list_copy_run. Qed.

Lemma is_empty_run :
  is_empty self h = (Ret (bool_decide (items = [])), h).
Proof.
  unfold is_empty. rewrite bind_run, (list_len_run _ _ items Hl).
  by destruct items.
Qed.

End Methods.

Lemma init_run M (h : heap) :
  __init__ M h = (Ret {| _items := fresh (dom h); max_per_item := M |},
                  <[fresh (dom h) := []]> h).
Proof. reflexivity. Qed.

(** ** One call keeps the invariants *)

Lemma lines_named_absent name items :
  name ∉ items.*1 → lines_named name items = [].
Proof.
  unfold lines_named. induction items as [|[n q] rest IH]; simpl; [done|].
  rewrite not_elem_of_cons. intros [Hne Hrest].
  rewrite filter_cons_False by (simpl; congruence). by apply IH.
Qed.

Lemma lines_named_unique name items :
  unique_names items → (length (lines_named name items) ≤ 1)%nat.
Proof.
  unfold unique_names.
  induction items as [|[n q] rest IH]; simpl; [unfold lines_named; simpl; lia|].
  rewrite NoDup_cons. intros [Hn Hrest].
  unfold lines_named. rewrite filter_cons. simpl.
  case_decide as Heq; [|by apply IH].
  subst n. fold (lines_named name rest).
  rewrite lines_named_absent by done. simpl. lia.
Qed.

Lemma do_call_run self h items c :
  h !! _items self = Some items →
  ∃ items', do_call self c h = (Ret tt, <[_items self := items']> h)
    ∧ (unique_names items → unique_names items')
    ∧ (1 ≤ max_per_item self →
       within_cap (max_per_item self) items →
       within_cap (max_per_item self) items').
Proof.
  intros Hl. unfold unique_names, within_cap.
  assert (do_nothing : ∀ r : outcome unit,
    (r, h) = (r, <[_items self := items]> h)) by (intros; by rewrite insert_id).
  destruct c as [name qty|name|name qty|]; simpl; rewrite ?bind_run.
  - destruct (Z.lt_ge_cases qty 1) as [Hq|Hq].
    { rewrite add_item_rejected_run by done. exists items. eauto. }
    destruct (decide (name ∈ items.*1)) as [Hin|Hout].
    + destruct (first_occurrence _ _ Hin) as (pre & e & post & Hitems & Hpre).
      rewrite (add_item_present_run _ _ _ Hl _ _ _ _ _ Hq Hitems Hpre).
      eexists; split_and!; [done| |].
      * subst items. by rewrite !fmap_app, !fmap_cons.
      * subst items. rewrite !Forall_app, !Forall_cons. simpl.
        intros HM (? & ? & ?). split_and!; (done || lia).
    + rewrite (add_item_absent_run _ _ _ Hl _ _ Hq Hout).
      eexists; split_and!; [done| |].
      * rewrite fmap_app, NoDup_app. simpl. intros Hnd. split_and!; [done| |].
        -- intros x Hx ->%list_elem_of_singleton. done.
        -- apply NoDup_singleton.
      * rewrite Forall_app, Forall_singleton. simpl.
        intros HM ?. split_and!; (done || lia).
  - destruct (decide (name ∈ items.*1)) as [Hin|Hout].
    + destruct (first_occurrence _ _ Hin) as (pre & e & post & Hitems & Hpre).
      rewrite (remove_item_present_run _ _ _ Hl _ _ _ _ Hitems Hpre).
      eexists; split_and!; [done| |]; subst items.
      * rewrite !fmap_app, fmap_cons, !NoDup_app, NoDup_cons.
        intros (? & Hdisj & _ & ?). split_and!; [done| |done].
        intros x Hx Hx'. apply (Hdisj x Hx). by right.
      * rewrite !Forall_app, Forall_cons. tauto.
    + rewrite (remove_item_absent_run _ _ _ Hl _ Hout). exists items. eauto.
  - destruct (decide (name ∈ items.*1)) as [Hin|Hout].
    + destruct (decide (1 ≤ qty ≤ max_per_item self)) as [Hq|Hq].
      * destruct (first_occurrence _ _ Hin) as (pre & e & post & Hitems & Hpre).
        rewrite (adjust_quantity_present_run _ _ _ Hl _ _ _ _ _ Hq Hitems Hpre).
        eexists; split_and!; [done| |]; subst items.
        -- by rewrite !fmap_app, !fmap_cons.
        -- rewrite !Forall_app, !Forall_cons. simpl. tauto.
      * rewrite (adjust_quantity_range_run _ _ _ Hl _ _ Hin) by lia.
        exists items. eauto.
    + rewrite (adjust_quantity_absent_run _ _ _ Hl _ _ Hout). exists items. eauto.
  - rewrite (clear_run _ _ _ Hl). exists []. split_and!; [done| |].
    + intros _. apply NoDup_nil_2.
    + intros _ _. apply Forall_nil_2.
Qed.

Lemma do_calls_run self cs : ∀ h items,
  h !! _items self = Some items →
  ∃ items', do_calls self cs h = (Ret tt, <[_items self := items']> h)
    ∧ (unique_names items → unique_names items')
    ∧ (1 ≤ max_per_item self →
       within_cap (max_per_item self) items →
       within_cap (max_per_item self) items').
Proof.
  induction cs as [|c cs IH]; intros h items Hl; simpl.
  - exists items. rewrite insert_id by done. eauto.
  - destruct (do_call_run self h items c Hl) as (items1 & Hrun & Hu & Hc).
    rewrite bind_run, Hrun.
    destruct (IH (<[_items self := items1]> h) items1) as (items2 & Hrun2 & Hu2 & Hc2).
    { apply lookup_insert_eq. }
    rewrite Hrun2, insert_insert_eq. exists items2. split_and!; [done| |].
    + intros ?. by apply Hu2, Hu.
    + intros ? ?. apply Hc2; [done|]. by apply Hc.
Qed.

(** A session always returns: the cart it built, and a store that holds
    its lines, which satisfy I1, and I2 when the cap is at least one. *)
Lemma session_run M cs (h0 : heap) :
  ∃ self h items,
    session M cs h0 = (Ret self, h)
    ∧ max_per_item self = M
    ∧ h !! _items self = Some items
    ∧ unique_names items
    ∧ (1 ≤ M → within_cap M items).
Proof.
  unfold session. rewrite bind_run, init_run.
  pose (self := {| _items := fresh (dom h0); max_per_item := M |}).
  destruct (do_calls_run self cs (<[fresh (dom h0) := []]> h0) [])
    as (items & Hrun & Hu & Hc); [apply lookup_insert_eq|].
  simpl in Hrun. rewrite bind_run. fold self. rewrite Hrun, insert_insert_eq.
  exists self, (<[fresh (dom h0) := items]> h0), items.
  split_and!; [done|done|apply lookup_insert_eq| |].
  - apply Hu, NoDup_nil_2.
  - intros HM. apply Hc; [done|]. apply Forall_nil_2.
Qed.

(** ** The invariants over sessions *)

(** C1 (cap invariant): for every cap [M >= 1] and every sequence [cs] of
    [add_item] and [adjust_quantity] calls on a fresh [Cart(max_per_item=M)],
    after each call (after the first [k] calls, for every [k]) the session
    has returned and every line of the cart has its quantity in [1, M]. *)
Theorem cap_invariant (M : Z) (cs : list call) (k : nat) (h0 : heap) :
  1 ≤ M → Forall adds_or_adjusts cs →
  ∃ self h items,
    session M (take k cs) h0 = (Ret self, h)
    ∧ max_per_item self = M
    ∧ h !! _items self = Some items
    ∧ within_cap M items.
Proof.
  intros HM _.
  destruct (session_run M (take k cs) h0) as (self & h & items & ? & ? & ? & _ & Hc).
  exists self, h, items. auto.
Qed.

Lemma cap_invariant_witness :
  1 ≤ 10
  ∧ Forall adds_or_adjusts
      [AddItem "Apple" 8; AddItem "Apple" 5; AdjustQuantity "Apple" 3]
  ∧ ∃ self h items,
      session 10
        (take 2 [AddItem "Apple" 8; AddItem "Apple" 5; AdjustQuantity "Apple" 3]) ∅
        = (Ret self, h)
      ∧ max_per_item self = 10
      ∧ h !! _items self = Some items
      ∧ within_cap 10 items.
Proof.
  split; [lia|]. split; [repeat constructor|].
  apply cap_invariant; [lia | repeat constructor].
Defined.

(** C2 (uniqueness invariant): for every item name and every sequence [cs]
    of [add_item], [remove_item], [adjust_quantity] and [clear] calls on a
    fresh cart, after each call (after the first [k] calls, for every [k])
    the cart holds at most one line with that name. *)
Theorem uniqueness_invariant (M : Z) (cs : list call) (k : nat) (h0 : heap)
    (name : string) :
  ∃ self h items,
    session M (take k cs) h0 = (Ret self, h)
    ∧ h !! _items self = Some items
    ∧ (length (lines_named name items) ≤ 1)%nat.
Proof.
  destruct (session_run M (take k cs) h0) as (self & h & items & ? & _ & ? & Hu & _).
  exists self, h, items. split_and!; [done..|]. by apply lines_named_unique.
Qed.

(** ** [add_item] *)

(** C3, as amended: for every cart state, name and [qty >= 1], if the name
    is not in the cart [add_item] appends [(name, min(qty, max_per_item))]
    and returns [True] with the capped message when [qty > max_per_item],
    else with "Added."; if the name is present with quantity [e] it
    replaces that line's quantity with [min(e + qty, max_per_item)] and
    returns [True] with the capped message when [e + qty > max_per_item],
    else with "Updated."; a [qty] equal to [max_per_item] is accepted
    without a capping message when the name is not in the cart. *)
Theorem add_item_postcondition self h items name qty :
  h !! _items self = Some items → 1 ≤ qty →
  (name ∉ items.*1 →
     add_item self name qty h =
       (Ret (true, if qty >? max_per_item self
                   then "Added (capped at " +:+ str_int (max_per_item self) +:+ ")."
                   else "Added."),
        <[_items self := items ++ [(name, Z.min qty (max_per_item self))]]> h))
  ∧ (∀ pre e post,
       items = pre ++ ((name, e) :: post) → name ∉ pre.*1 →
       add_item self name qty h =
         (Ret (true, if e + qty >? max_per_item self
                     then "Updated (capped at " +:+ str_int (max_per_item self) +:+ ")."
                     else "Updated."),
          <[_items self :=
              pre ++ ((name, Z.min (e + qty) (max_per_item self)) :: post)]> h))
  ∧ (name ∉ items.*1 → qty = max_per_item self →
       add_item self name qty h =
         (Ret (true, "Added."), <[_items self := items ++ [(name, qty)]]> h)).
Proof.
  intros Hl Hq. split_and!.
  - intros Hn. by apply add_item_absent_run.
  - intros pre e post Hitems Hn. by apply add_item_present_run with items.
  - intros Hn HM. rewrite (add_item_absent_run _ _ _ Hl _ _ Hq Hn).
    rewrite <- HM, Z.min_id.
    by destruct (Z.gtb_spec qty qty); [lia|].
Qed.

Lemma add_item_postcondition_witness :
  ({[ 1%positive := [("Pear", 2); ("Apple", 8)] ]} : heap) !! _items cart
    = Some [("Pear", 2); ("Apple", 8)]
  ∧ 1 ≤ 5
  ∧ add_item cart "Apple" 5 {[ 1%positive := [("Pear", 2); ("Apple", 8)] ]}
    = (Ret (true, "Updated (capped at 10)."),
       {[ 1%positive := [("Pear", 2); ("Apple", 10)] ]}).
Proof.
  assert (Hl : ({[ 1%positive := [("Pear", 2); ("Apple", 8)] ]} : heap) !! _items cart
               = Some [("Pear", 2); ("Apple", 8)]) by reflexivity.
  assert (Hq : 1 ≤ 5) by lia.
  split_and!; [done..|].
  destruct (add_item_postcondition cart _ _ "Apple" 5 Hl Hq) as (_ & Hpresent & _).
  rewrite (Hpresent [("Pear", 2)] 8 []); [reflexivity|reflexivity|].
  simpl. rewrite list_elem_of_singleton. discriminate.
Defined.

(** C3 as stated fails in its last clause: with "Apple" already in the
    cart, [add_item("Apple", 10)] under a cap of 10 is accepted with the
    message "Updated (capped at 10).". *)
Lemma add_item_borderline_counterexample :
  ¬ (∀ (self : Cart) (h : heap) (items : list CartLine) (name : string) (qty : Z),
       h !! _items self = Some items → 1 ≤ qty →
       (name ∉ items.*1 →
          add_item self name qty h =
            (Ret (true, if qty >? max_per_item self
                        then "Added (capped at " +:+ str_int (max_per_item self) +:+ ")."
                        else "Added."),
             <[_items self := items ++ [(name, Z.min qty (max_per_item self))]]> h))
       ∧ (∀ pre e post,
            items = pre ++ ((name, e) :: post) → name ∉ pre.*1 →
            add_item self name qty h =
              (Ret (true, if e + qty >? max_per_item self
                          then "Updated (capped at " +:+ str_int (max_per_item self) +:+ ")."
                          else "Updated."),
               <[_items self :=
                   pre ++ ((name, Z.min (e + qty) (max_per_item self)) :: post)]> h))
       ∧ (qty = max_per_item self →
            ∃ msg h', add_item self name qty h = (Ret (true, msg), h')
                      ∧ ¬ capped_message (max_per_item self) msg)).
Proof.
  intros Hclaim.
  destruct (Hclaim cart {[ 1%positive := [("Apple", 1)] ]} [("Apple", 1)] "Apple" 10)
    as (_ & _ & Hlast); [reflexivity | lia |].
  destruct Hlast as (msg & h' & Hrun & Hmsg); [reflexivity|].
  vm_compute in Hrun. injection Hrun as <- _. apply Hmsg. by right.
Qed.

Example add_item_borderline_run :
  add_item cart "Apple" 10 {[ 1%positive := [("Apple", 1)] ]}
  = (Ret (true, "Updated (capped at 10)."), {[ 1%positive := [("Apple", 10)] ]}).
Proof. vm_compute. reflexivity. Qed.

(** C6 (rejection atomicity): when [qty < 1], [add_item] returns
    [(False, "Quantity must be at least 1.")] and the store is unchanged;
    and whenever [add_item] returns [ok = False] the store is unchanged, so
    it mutates only on the paths that return [True]. *)
Theorem add_item_rejection_atomic self (h : heap) name qty :
  (qty < 1 →
     add_item self name qty h = (Ret (false, "Quantity must be at least 1."), h))
  ∧ (∀ msg h', add_item self name qty h = (Ret (false, msg), h') →
       h' = h ∧ qty < 1).
Proof.
  split; [apply add_item_rejected_run|].
  intros msg h' Hrun. destruct (Z.lt_ge_cases qty 1) as [Hq|Hq].
  { rewrite add_item_rejected_run in Hrun by done. by injection Hrun as _ <-. }
  exfalso. destruct (h !! _items self) as [items|] eqn:Hl.
  - destruct (decide (name ∈ items.*1)) as [Hin|Hout].
    + destruct (first_occurrence _ _ Hin) as (pre & e & post & Hitems & Hpre).
      by rewrite (add_item_present_run _ _ _ Hl _ _ _ _ _ Hq Hitems Hpre) in Hrun.
    + by rewrite (add_item_absent_run _ _ _ Hl _ _ Hq Hout) in Hrun.
  - unfold add_item, find_index, list_read in Hrun.
    rewrite (proj2 (Z.ltb_ge _ _) Hq), !bind_run, Hl in Hrun. done.
Qed.

Lemma add_item_rejection_atomic_witness :
  0 < 1
  ∧ add_item cart "Apple" 0
      {[ 1%positive := [("Apple", 4)] ]}
    = (Ret (false, "Quantity must be at least 1."),
       {[ 1%positive := [("Apple", 4)] ]}).
Proof.
  split; [lia|].
  apply (add_item_rejection_atomic cart). lia.
Defined.

(** ** [adjust_quantity] *)

(** C4: [adjust_quantity(name, qty)] succeeds iff the name is in the cart
    and [1 <= qty <= max_per_item]; on success the line's quantity becomes
    exactly [qty]; when the name is absent, or the quantity out of range,
    it returns [False] with the message of that failure and the store is
    unchanged. *)
Theorem adjust_quantity_spec self h items name qty :
  h !! _items self = Some items →
  ((∃ msg h', adjust_quantity self name qty h = (Ret (true, msg), h'))
     ↔ name ∈ items.*1 ∧ 1 ≤ qty ≤ max_per_item self)
  ∧ (∀ pre e post,
       items = pre ++ ((name, e) :: post) → name ∉ pre.*1 →
       1 ≤ qty ≤ max_per_item self →
       adjust_quantity self name qty h =
         (Ret (true, "Quantity updated."),
          <[_items self := pre ++ ((name, qty) :: post)]> h))
  ∧ (name ∉ items.*1 →
       adjust_quantity self name qty h = (Ret (false, "Item not in cart."), h))
  ∧ (name ∈ items.*1 → ¬ (1 ≤ qty ≤ max_per_item self) →
       adjust_quantity self name qty h =
         (Ret (false, "Quantity must be between 1 and "
                        +:+ str_int (max_per_item self) +:+ "."), h)).
Proof.
  intros Hl.
  assert (Hok : ∀ pre e post,
    items = pre ++ ((name, e) :: post) → name ∉ pre.*1 →
    1 ≤ qty ≤ max_per_item self →
    adjust_quantity self name qty h =
      (Ret (true, "Quantity updated."),
       <[_items self := pre ++ ((name, qty) :: post)]> h)).
  { intros pre e post Hitems Hpre Hq. by apply adjust_quantity_present_run with items e. }
  assert (Habsent : name ∉ items.*1 →
    adjust_quantity self name qty h = (Ret (false, "Item not in cart."), h)).
  { intros Hn. by apply adjust_quantity_absent_run with items. }
  assert (Hrange : name ∈ items.*1 → ¬ (1 ≤ qty ≤ max_per_item self) →
    adjust_quantity self name qty h =
      (Ret (false, "Quantity must be between 1 and "
                     +:+ str_int (max_per_item self) +:+ "."), h)).
  { intros Hn Hq. apply adjust_quantity_range_run with items; [done..|lia]. }
  split_and!; try done.
  split.
  - intros (msg & h' & Hrun).
    destruct (decide (name ∈ items.*1)) as [Hin|Hout];
      [|by rewrite Habsent in Hrun].
    destruct (decide (1 ≤ qty ≤ max_per_item self)) as [Hq|Hq]; [done|].
    by rewrite Hrange in Hrun.
  - intros [Hin Hq].
    destruct (first_occurrence _ _ Hin) as (pre & e & post & Hitems & Hpre).
    rewrite (Hok pre e post) by done. eauto.
Qed.

Lemma adjust_quantity_spec_witness :
  ({[ 1%positive := [("Pear", 2); ("Apple", 8)] ]} : heap) !! _items cart
    = Some [("Pear", 2); ("Apple", 8)]
  ∧ adjust_quantity cart "Banana" 3 {[ 1%positive := [("Pear", 2); ("Apple", 8)] ]}
    = (Ret (false, "Item not in cart."),
       {[ 1%positive := [("Pear", 2); ("Apple", 8)] ]}).
Proof.
  split; [reflexivity|].
  apply (adjust_quantity_spec cart _ [("Pear", 2); ("Apple", 8)] "Banana" 3);
    [reflexivity|].
  simpl. rewrite !not_elem_of_cons. split_and!; try discriminate.
  apply not_elem_of_nil.
Defined.

(** ** [remove_item] *)

Lemma other_lines_absent name items :
  name ∉ items.*1 → other_lines name items = items.
Proof.
  unfold other_lines. induction items as [|[n q] rest IH]; simpl; [done|].
  rewrite not_elem_of_cons. intros [Hne Hrest].
  rewrite filter_cons_True by (simpl; congruence). f_equal. by apply IH.
Qed.

Lemma other_lines_without name items : name ∉ (other_lines name items).*1.
Proof.
  unfold other_lines. intros ([n q] & -> & Hin)%list_elem_of_fmap.
  apply list_elem_of_filter in Hin as [Hne _]. by apply Hne.
Qed.

Lemma other_lines_first name pre e post :
  unique_names (pre ++ ((name, e) :: post)) →
  other_lines name (pre ++ ((name, e) :: post)) = pre ++ post.
Proof.
  unfold unique_names.
  rewrite fmap_app, fmap_cons, NoDup_app, NoDup_cons. simpl.
  intros (_ & Hdisj & Hpost & _).
  assert (Hpre : name ∉ pre.*1) by (intros Hin; apply (Hdisj _ Hin); left).
  unfold other_lines. rewrite filter_app, filter_cons_False by (simpl; tauto).
  fold (other_lines name pre) (other_lines name post).
  by rewrite !other_lines_absent.
Qed.

(** [remove_item] on a cart whose names are unique. *)
Lemma remove_item_unique self h items name :
  h !! _items self = Some items → unique_names items →
  remove_item self name h
  = (Ret (bool_decide (name ∈ items.*1)),
     <[_items self := other_lines name items]> h).
Proof.
  intros Hl Hu. destruct (decide (name ∈ items.*1)) as [Hin|Hout].
  - destruct (first_occurrence _ _ Hin) as (pre & e & post & Hitems & Hpre).
    rewrite (remove_item_present_run _ _ _ Hl _ _ _ _ Hitems Hpre).
    rewrite bool_decide_eq_true_2 by done. subst items.
    by rewrite other_lines_first.
  - rewrite (remove_item_absent_run _ _ _ Hl _ Hout).
    rewrite bool_decide_eq_false_2, other_lines_absent by done.
    by rewrite insert_id.
Qed.

(** C5 (remove correctness): in every state a cart can reach from its
    construction, [remove_item(name)] returns [True] iff a line with that
    name was present; afterwards the cart holds exactly the lines of the
    other names, in their order, so none with that name; and when the name
    was absent the store is unchanged. *)
Theorem remove_item_correct M cs (h0 : heap) self h name :
  session M cs h0 = (Ret self, h) →
  ∃ items removed,
    h !! _items self = Some items
    ∧ remove_item self name h
      = (Ret removed, <[_items self := other_lines name items]> h)
    ∧ (removed = true ↔ name ∈ items.*1)
    ∧ (name ∉ (other_lines name items).*1)
    ∧ (name ∉ items.*1 → <[_items self := other_lines name items]> h = h).
Proof.
  intros Hs.
  destruct (session_run M cs h0) as (self' & h' & items & Hs' & _ & Hl & Hu & _).
  rewrite Hs in Hs'. injection Hs' as <- <-.
  exists items, (bool_decide (name ∈ items.*1)). split_and!.
  - done.
  - by apply remove_item_unique.
  - apply bool_decide_eq_true.
  - apply other_lines_without.
  - intros Hout. rewrite other_lines_absent by done. by apply insert_id.
Qed.

Lemma remove_item_correct_witness :
  session 10 [AddItem "Pear" 2; AddItem "Apple" 8; AddItem "Kiwi" 1;
              RemoveItem "Apple"] ∅
    = (Ret cart, {[ 1%positive := [("Pear", 2); ("Kiwi", 1)] ]})
  ∧ ∃ items removed,
      ({[ 1%positive := [("Pear", 2); ("Kiwi", 1)] ]} : heap) !! _items cart
        = Some items
      ∧ remove_item cart "Pear" {[ 1%positive := [("Pear", 2); ("Kiwi", 1)] ]}
        = (Ret removed,
           <[_items cart := other_lines "Pear" items]>
             {[ 1%positive := [("Pear", 2); ("Kiwi", 1)] ]})
      ∧ (removed = true ↔ "Pear" ∈ items.*1)
      ∧ ("Pear" ∉ (other_lines "Pear" items).*1)
      ∧ ("Pear" ∉ items.*1 →
           <[_items cart := other_lines "Pear" items]>
             ({[ 1%positive := [("Pear", 2); ("Kiwi", 1)] ]} : heap)
           = {[ 1%positive := [("Pear", 2); ("Kiwi", 1)] ]}).
Proof.
  assert (Hs : session 10 [AddItem "Pear" 2; AddItem "Apple" 8; AddItem "Kiwi" 1;
                           RemoveItem "Apple"] ∅
               = (Ret cart, {[ 1%positive := [("Pear", 2); ("Kiwi", 1)] ]}))
    by (vm_compute; reflexivity).
  split; [exact Hs|]. exact (remove_item_correct _ _ _ _ _ "Pear" Hs).
Defined.

(** ** Names the cart does not check *)

(** C10: the cart takes the empty name, and any name that is only
    whitespace.  For [qty >= 1], [add_item] of such a name that is not in
    the cart succeeds and appends a line with that name; once the line is
    there, [add_item], [remove_item] and [adjust_quantity] work on it as on
    any other; only [validate_order_fields] turns such a name down. *)
Theorem blank_name_accepted self h items name qty :
  blank name → h !! _items self = Some items → 1 ≤ qty →
  (name ∉ items.*1 →
     ∃ msg, add_item self name qty h =
       (Ret (true, msg),
        <[_items self := items ++ [(name, Z.min qty (max_per_item self))]]> h))
  ∧ (∀ pre e post,
       items = pre ++ ((name, e) :: post) → name ∉ pre.*1 →
       (∃ msg, add_item self name qty h =
          (Ret (true, msg),
           <[_items self :=
               pre ++ ((name, Z.min (e + qty) (max_per_item self)) :: post)]> h))
       ∧ remove_item self name h = (Ret true, <[_items self := pre ++ post]> h)
       ∧ (qty ≤ max_per_item self →
            adjust_quantity self name qty h =
              (Ret (true, "Quantity updated."),
               <[_items self := pre ++ ((name, qty) :: post)]> h)))
  ∧ (∀ cart quantity (h' : heap),
       validate_order_fields cart name quantity h'
       = (Ret (false, "Item name is required."), h')).
Proof.
  intros Hblank Hl Hq. split_and!.
  - intros Hn. rewrite (add_item_absent_run _ _ _ Hl _ _ Hq Hn). eauto.
  - intros pre e post Hitems Hpre. split_and!.
    + rewrite (add_item_present_run _ _ _ Hl _ _ _ _ _ Hq Hitems Hpre). eauto.
    + by apply remove_item_present_run with items e.
    + intros HM. by apply adjust_quantity_present_run with items e.
  - intros cart quantity h'. unfold validate_order_fields.
    unfold blank in Hblank. by rewrite Hblank, orb_true_r.
Qed.

Lemma blank_name_accepted_witness :
  blank ""
  ∧ ({[ 1%positive := [("Pear", 2)] ]} : heap) !! _items cart = Some [("Pear", 2)]
  ∧ 1 ≤ 3
  ∧ ∃ msg, add_item cart "" 3 {[ 1%positive := [("Pear", 2)] ]} =
      (Ret (true, msg),
       <[_items cart := [("Pear", 2); ("", 3)]]> {[ 1%positive := [("Pear", 2)] ]}).
Proof.
  split_and!; [reflexivity | reflexivity | lia |].
  apply (blank_name_accepted cart _ [("Pear", 2)] "" 3);
    [reflexivity | reflexivity | lia |].
  simpl. rewrite list_elem_of_singleton. discriminate.
Defined.

(** ** [to_list] *)

Lemma mutate_frame (r l : loc) (m : mutation) (h : heap) :
  l ≠ r → (mutate r m h).2 !! l = h !! l.
Proof.
  intros Hne.
  destruct m as [x|i x|i|]; simpl;
    unfold list_append, list_setitem, list_pop, list_clear, list_read, list_write,
      raise;
    rewrite ?bind_run; destruct (h !! r) as [xs|]; simpl; try done.
  - by apply lookup_insert_ne.
  - case_decide; simpl; [by apply lookup_insert_ne | done].
  - destruct (xs !! i); simpl; [by apply lookup_insert_ne | done].
  - by apply lookup_insert_ne.
Qed.

Lemma mutate_all_frame (r l : loc) (ms : list mutation) : ∀ h : heap,
  l ≠ r → mutate_all r ms h !! l = h !! l.
Proof.
  induction ms as [|m ms IH]; intros h Hne; simpl; [done|].
  rewrite IH by done. by apply mutate_frame.
Qed.

(** C8 (snapshot isolation): [to_list()] returns a new list object, at a
    reference [r] that no object had before, so not the cart's own list,
    whose elements are the cart's lines in their order; whatever mutations
    [ms] are then made to the returned list, the cart's lines stay as they
    were and the next [to_list()] returns them again. *)
Theorem to_list_snapshot self h items (ms : list mutation) :
  h !! _items self = Some items →
  ∃ r h1,
    to_list self h = (Ret r, h1)
    ∧ h !! r = None
    ∧ r ≠ _items self
    ∧ h1 !! r = Some items
    ∧ h1 !! _items self = Some items
    ∧ mutate_all r ms h1 !! _items self = Some items
    ∧ ∃ r' h3,
        to_list self (mutate_all r ms h1) = (Ret r', h3)
        ∧ h3 !! r' = Some items
        ∧ h3 !! _items self = Some items.
Proof.
  intros Hl. set (r := fresh (dom h)).
  assert (Hr : h !! r = None) by apply fresh_not_allocated.
  assert (Hne : _items self ≠ r) by congruence.
  exists r, (<[r := items]> h).
  assert (Hl1 : <[r := items]> h !! _items self = Some items)
    by by rewrite lookup_insert_ne.
  assert (Hl2 : mutate_all r ms (<[r := items]> h) !! _items self = Some items)
    by by rewrite mutate_all_frame.
  split_and!; try done.
  - by apply to_list_run.
  - apply lookup_insert_eq.
  - eexists _, _. split_and!.
    + by apply to_list_run.
    + apply lookup_insert_eq.
    + rewrite lookup_insert_ne; [done|].
      intros Heq. pose proof (fresh_not_allocated (mutate_all r ms (<[r:=items]> h))).
      congruence.
Qed.

Lemma to_list_snapshot_witness :
  ({[ 1%positive := [("Pear", 2); ("Apple", 8)] ]} : heap) !! _items cart
    = Some [("Pear", 2); ("Apple", 8)]
  ∧ ∃ r h1,
      to_list cart {[ 1%positive := [("Pear", 2); ("Apple", 8)] ]} = (Ret r, h1)
      ∧ ({[ 1%positive := [("Pear", 2); ("Apple", 8)] ]} : heap) !! r = None
      ∧ r ≠ _items cart
      ∧ h1 !! r = Some [("Pear", 2); ("Apple", 8)]
      ∧ h1 !! _items cart = Some [("Pear", 2); ("Apple", 8)]
      ∧ mutate_all r [SetItem 0 ("Pear", 99); Pop 1; Append ("Fig", 0); ClearAll] h1
          !! _items cart = Some [("Pear", 2); ("Apple", 8)]
      ∧ ∃ r' h3,
          to_list cart
            (mutate_all r [SetItem 0 ("Pear", 99); Pop 1; Append ("Fig", 0); ClearAll] h1)
            = (Ret r', h3)
          ∧ h3 !! r' = Some [("Pear", 2); ("Apple", 8)]
          ∧ h3 !! _items cart = Some [("Pear", 2); ("Apple", 8)].
Proof.
  split; [reflexivity|]. apply (to_list_snapshot cart). reflexivity.
Defined.

(** ** [validate_order_fields] *)

(** C9 (validation purity): whatever its arguments, and whether it returns
    or raises, [validate_order_fields] leaves the store as it found it, so
    the lines of the cart are what they were; of the cart it reads
    [max_per_item] only. *)
Theorem validation_pure cart item_name quantity (h : heap) :
  (validate_order_fields cart item_name quantity h).2 = h
  ∧ (validate_order_fields cart item_name quantity h).2 !! _items cart
    = h !! _items cart
  ∧ ∀ other : Cart, max_per_item other = max_per_item cart →
      validate_order_fields other item_name quantity h
      = validate_order_fields cart item_name quantity h.
Proof.
  assert (Hpure : (validate_order_fields cart item_name quantity h).2 = h).
  { unfold validate_order_fields, int, raise.
    destruct (negb (truthy item_name) || negb (truthy (strip item_name))); [done|].
    destruct (negb (str_isdigit (strip (str quantity)))); [done|].
    rewrite bind_run.
    destruct (int_of_str (strip (str quantity))) as [q|]; simpl; [|done].
    destruct (q <=? 0); [done|]. by destruct (q >? max_per_item cart). }
  split_and!; [done | by rewrite Hpure |].
  intros other HM. unfold validate_order_fields. by rewrite HM.
Qed.

(** *** Where the code meets the four checks *)

Lemma isdecimal_not_space c : isdecimal c = true → isspace c = false.
Proof. destruct c as [[] [] [] [] [] [] [] []]; vm_compute; congruence. Qed.


Lemma lstrip_decimal s : forall_chars isdecimal s = true → lstrip s = s.
Proof.
  destruct s as [|c rest]; simpl; [done|].
  intros [Hc _]%andb_true_iff. by rewrite isdecimal_not_space.
Qed.

Lemma rstrip_decimal s : forall_chars isdecimal s = true → rstrip s = s.
Proof.
  induction s as [|c rest IH]; simpl; [done|].
  intros [Hc Hrest]%andb_true_iff. rewrite IH by done.
  destruct rest; [|done]. by rewrite isdecimal_not_space.
Qed.

Lemma strip_decimal s : forall_chars isdecimal s = true → strip s = s.
Proof.
  intros Hs. unfold strip. by rewrite lstrip_decimal, rstrip_decimal.
Qed.

Lemma parse_digits_decimal s : ∀ acc after_digit,
  forall_chars isdecimal s = true →
  after_digit || truthy s = true →
  parse_digits acc after_digit s = Some (decimal_value acc s).
Proof.
  induction s as [|c rest IH]; intros acc after_digit; simpl.
  - intros _. rewrite orb_false_r. by intros ->.
  - intros [Hc Hrest]%andb_true_iff _. rewrite Hc. by apply IH.
Qed.

Lemma int_of_str_decimal s :
  decimal_digits s = true → int_of_str s = Some (decimal_value 0 s).
Proof.
  unfold decimal_digits. intros [Hne Hs]%andb_true_iff.
  unfold int_of_str. rewrite strip_decimal by done.
  rewrite <- (parse_digits_decimal s 0 false) by (by rewrite ?Hne).
  destruct s as [|c rest]; [done|].
  simpl in Hs. apply andb_true_iff in Hs as [Hc _].
  destruct c as [[] [] [] [] [] [] [] []]; vm_compute in Hc; congruence.
Qed.

Lemma forall_chars_lstrip p s :
  forall_chars p s = true → forall_chars p (lstrip s) = true.
Proof.
  induction s as [|c rest IH]; simpl; [done|].
  intros [Hc Hrest]%andb_true_iff.
  destruct (isspace c); [by apply IH|]. simpl. by rewrite Hc, Hrest.
Qed.

Lemma forall_chars_rstrip p s :
  forall_chars p s = true → forall_chars p (rstrip s) = true.
Proof.
  induction s as [|c rest IH]; simpl; [done|].
  intros [Hc Hrest]%andb_true_iff. specialize (IH Hrest).
  destruct (rstrip rest) as [|c' kept].
  - destruct (isspace c); simpl; [done|]. by rewrite Hc.
  - simpl in *. by rewrite Hc, IH.
Qed.

Lemma no_superscript_strip s :
  no_superscript s = true → no_superscript (strip s) = true.
Proof.
  unfold no_superscript, strip. intros Hs.
  by apply forall_chars_rstrip, forall_chars_lstrip.
Qed.

Lemma no_superscript_isdigit s :
  no_superscript s = true → str_isdigit s = decimal_digits s.
Proof.
  unfold str_isdigit, decimal_digits, no_superscript. intros Hs. f_equal.
  induction s as [|c rest IH]; simpl in *; [done|].
  apply andb_true_iff in Hs as [Hc Hrest]. rewrite IH by done. f_equal.
  unfold isdigit in *. destruct (isdecimal c); simpl in *; [done|].
  by apply negb_true_iff in Hc.
Qed.

Lemma strip_empty : strip "" = "".
Proof. reflexivity. Qed.

(** On every quantity whose string form has none of the superscripts
    U+00B2, U+00B3 and U+00B9, [validate_order_fields] returns what the
    four checks of the specification say, for every item name. *)
Lemma validate_order_fields_meets_spec cart item_name quantity (h : heap) :
  no_superscript (str quantity) = true →
  validate_order_fields cart item_name quantity h
  = (Ret (validate_order_fields_spec (max_per_item cart) item_name quantity), h).
Proof.
  intros Hq. unfold validate_order_fields, validate_order_fields_spec.
  assert (negb (truthy item_name) || negb (truthy (strip item_name))
          = negb (truthy (strip item_name))) as ->.
  { destruct item_name; [by rewrite strip_empty | done]. }
  destruct (negb (truthy (strip item_name))); [done|].
  rewrite (no_superscript_isdigit _ (no_superscript_strip _ Hq)).
  destruct (decimal_digits (strip (str quantity))) eqn:Hd; simpl; [|done].
  unfold int. rewrite bind_run, (int_of_str_decimal _ Hd). simpl.
  destruct (decimal_value 0 (strip (str quantity)) <=? 0); [done|].
  by destruct (decimal_value 0 (strip (str quantity)) >? max_per_item cart).
Qed.

(** C7 fails on the code: the quantity "²" is not made of decimal digits,
    for which the four checks give [(False, "Quantity must be a whole
    number.")], but it passes [isdigit()], and [int()] then raises
    [ValueError] out of [validate_order_fields]. *)
Theorem validate_order_fields_superscript_raises cart (h : heap) :
  validate_order_fields cart "Apple" (PyStr (String superscript_two "")) h
  = (Raise ValueError, h)
  ∧ validate_order_fields_spec (max_per_item cart) "Apple"
      (PyStr (String superscript_two ""))
    = (false, "Quantity must be a whole number.").
Proof. split; reflexivity. Qed.

(** * Further properties of the code *)

(** ** The cart on its own *)

(** X1. [find_index(name)] returns the position of the first line with that
    name, a valid index, and [None] exactly when no line has the name; it
    changes nothing. *)
Theorem find_index_first self h items name :
  h !! _items self = Some items →
  ∃ r, find_index self name h = (Ret r, h)
    ∧ (r = None ↔ name ∉ items.*1)
    ∧ ∀ i, r = Some i →
        (i < length items)%nat
        ∧ (∃ q, items !! i = Some (name, q))
        ∧ ∀ j line, (j < i)%nat → items !! j = Some line → line.1 ≠ name.
Proof.
  intros Hl. exists (find_index_from 0 items name). split_and!.
  - by apply find_index_run.
  - apply find_index_from_None.
  - intros i (pre & q & post & -> & Hpre & ->)%find_index_from_Some. simpl.
    split_and!.
    + rewrite length_app. simpl. lia.
    + exists q. apply lookup_first_occurrence.
    + intros j line Hj Hline. rewrite lookup_app_l in Hline by done.
      intros <-. apply Hpre, list_elem_of_fmap. exists line. split; [done|].
      by apply list_elem_of_lookup_2 with j.
Qed.

Lemma find_index_first_witness :
  ({[ 1%positive := [("Pear", 2); ("Apple", 8); ("Apple", 3)] ]} : heap) !! _items cart
    = Some [("Pear", 2); ("Apple", 8); ("Apple", 3)]
  ∧ find_index cart "Apple" {[ 1%positive := [("Pear", 2); ("Apple", 8); ("Apple", 3)] ]}
    = (Ret (Some 1%nat), {[ 1%positive := [("Pear", 2); ("Apple", 8); ("Apple", 3)] ]}).
Proof.
  split; [reflexivity|].
  destruct (find_index_first cart
              {[ 1%positive := [("Pear", 2); ("Apple", 8); ("Apple", 3)] ]}
              [("Pear", 2); ("Apple", 8); ("Apple", 3)] "Apple")
    as (r & Hrun & _); [reflexivity|].
  rewrite Hrun. vm_compute in Hrun. by injection Hrun as ->.
Defined.

(** X2. [clear()] leaves the cart empty, whatever it held: [is_empty()] is
    then [True], no name can be removed, and a second [clear()] changes
    nothing more. *)
Theorem clear_empties self h items :
  h !! _items self = Some items →
  (clear self;; is_empty self) h = (Ret true, <[_items self := []]> h)
  ∧ (∀ name, (clear self;; remove_item self name) h
             = (Ret false, <[_items self := []]> h))
  ∧ (clear self;; clear self) h = clear self h.
Proof.
  intros Hl.
  assert (Hl' : <[_items self := []]> h !! _items self = Some [])
    by apply lookup_insert_eq.
  split_and!.
  - by rewrite bind_run, (clear_run _ _ _ Hl), (is_empty_run _ _ _ Hl').
  - intros name. rewrite bind_run, (clear_run _ _ _ Hl).
    apply remove_item_absent_run with []; [done|]. apply not_elem_of_nil.
  - rewrite bind_run, !(clear_run _ _ _ Hl), (clear_run _ _ _ Hl').
    by rewrite insert_insert_eq.
Qed.

Lemma clear_empties_witness :
  ({[ 1%positive := [("Pear", 2); ("Apple", 8)] ]} : heap) !! _items cart
    = Some [("Pear", 2); ("Apple", 8)]
  ∧ (clear cart;; is_empty cart) {[ 1%positive := [("Pear", 2); ("Apple", 8)] ]}
    = (Ret true,
       <[_items cart := []]> {[ 1%positive := [("Pear", 2); ("Apple", 8)] ]}).
Proof.
  split; [reflexivity|].
  apply (clear_empties cart _ [("Pear", 2); ("Apple", 8)]). reflexivity.
Defined.

(** X3. [is_empty()] is [True] exactly when the cart has no line, and changes
    nothing; after an [add_item] with [qty >= 1] it is [False]. *)
Theorem is_empty_iff self h items name qty :
  h !! _items self = Some items → 1 ≤ qty →
  (∃ b, is_empty self h = (Ret b, h) ∧ (b = true ↔ items = []))
  ∧ ∃ r h', add_item self name qty h = (Ret r, h')
            ∧ is_empty self h' = (Ret false, h').
Proof.
  intros Hl Hq. split.
  - exists (bool_decide (items = [])). split; [by apply is_empty_run|].
    apply bool_decide_eq_true.
  - destruct (decide (name ∈ items.*1)) as [Hin|Hout].
    + destruct (first_occurrence _ _ Hin) as (pre & e & post & Hitems & Hpre).
      rewrite (add_item_present_run _ _ _ Hl _ _ _ _ _ Hq Hitems Hpre).
      eexists _, _. split; [done|].
      erewrite is_empty_run by apply lookup_insert_eq.
      rewrite bool_decide_eq_false_2; [done|]. by destruct pre.
    + rewrite (add_item_absent_run _ _ _ Hl _ _ Hq Hout).
      eexists _, _. split; [done|].
      erewrite is_empty_run by apply lookup_insert_eq.
      rewrite bool_decide_eq_false_2; [done|]. by destruct items.
Qed.

Lemma is_empty_iff_witness :
  ({[ 1%positive := [] ]} : heap) !! _items cart = Some []
  ∧ 1 ≤ 2
  ∧ ∃ r h', add_item cart "Pear" 2 {[ 1%positive := [] ]} = (Ret r, h')
            ∧ is_empty cart h' = (Ret false, h').
Proof.
  split_and!; [reflexivity | lia |].
  apply (is_empty_iff cart {[ 1%positive := [] ]} [] "Pear" 2); [reflexivity | lia].
Defined.

(** X4. Adding a name the cart does not hold and removing it again restores
    the store exactly: [remove_item] returns [True] and the lines are what
    they were. *)
Theorem add_then_remove self h items name qty :
  h !! _items self = Some items → 1 ≤ qty → name ∉ items.*1 →
  (add_item self name qty;; remove_item self name) h = (Ret true, h).
Proof.
  intros Hl Hq Hout.
  rewrite bind_run, (add_item_absent_run _ _ _ Hl _ _ Hq Hout).
  erewrite remove_item_present_run;
    [| apply lookup_insert_eq | reflexivity | done].
  by rewrite insert_insert_eq, app_nil_r, insert_id.
Qed.

Lemma add_then_remove_witness :
  ({[ 1%positive := [("Pear", 2)] ]} : heap) !! _items cart = Some [("Pear", 2)]
  ∧ 1 ≤ 25
  ∧ ("Apple" ∉ [("Pear", 2)].*1)
  ∧ (add_item cart "Apple" 25;; remove_item cart "Apple") {[ 1%positive := [("Pear", 2)] ]}
    = (Ret true, {[ 1%positive := [("Pear", 2)] ]}).
Proof.
  assert (Hout : "Apple" ∉ [("Pear", 2)].*1).
  { simpl. rewrite list_elem_of_singleton. discriminate. }
  split_and!; [reflexivity | lia | exact Hout |].
  apply (add_then_remove cart _ [("Pear", 2)] "Apple" 25); [reflexivity | lia | exact Hout].
Defined.

(** X5. Two [add_item] calls for one name leave the cart as a single call with
    the sum of the quantities does: capping commutes with adding. *)
Theorem add_item_additive self h items name q1 q2 :
  h !! _items self = Some items → 1 ≤ q1 → 1 ≤ q2 →
  ((add_item self name q1;; add_item self name q2) h).2
  = (add_item self name (q1 + q2) h).2.
Proof.
  intros Hl Hq1 Hq2. assert (Hq : 1 ≤ q1 + q2) by lia.
  rewrite bind_run. destruct (decide (name ∈ items.*1)) as [Hin|Hout].
  - destruct (first_occurrence _ _ Hin) as (pre & e & post & Hitems & Hpre).
    rewrite (add_item_present_run _ _ _ Hl _ _ _ _ _ Hq1 Hitems Hpre).
    rewrite (add_item_present_run _ _ _ Hl _ _ _ _ _ Hq Hitems Hpre).
    erewrite add_item_present_run;
      [| apply lookup_insert_eq | done | reflexivity | done].
    simpl. rewrite insert_insert_eq. do 4 f_equal. lia.
  - rewrite (add_item_absent_run _ _ _ Hl _ _ Hq1 Hout).
    rewrite (add_item_absent_run _ _ _ Hl _ _ Hq Hout).
    erewrite add_item_present_run;
      [| apply lookup_insert_eq | done | reflexivity | done].
    simpl. rewrite insert_insert_eq. do 4 f_equal. lia.
Qed.

Lemma add_item_additive_witness :
  ({[ 1%positive := [("Apple", 4)] ]} : heap) !! _items cart = Some [("Apple", 4)]
  ∧ 1 ≤ 3 ∧ 1 ≤ 5
  ∧ ((add_item cart "Apple" 3;; add_item cart "Apple" 5) {[ 1%positive := [("Apple", 4)] ]}).2
    = (add_item cart "Apple" (3 + 5) {[ 1%positive := [("Apple", 4)] ]}).2.
Proof.
  split_and!; [reflexivity | lia | lia |].
  apply (add_item_additive cart _ [("Apple", 4)] "Apple" 3 5); [reflexivity | lia | lia].
Defined.

(** X6. Of two accepted [adjust_quantity] calls for one name the last one
    wins: the cart is as if only the second had been made. *)
Theorem adjust_quantity_last_wins self h items name q1 q2 :
  h !! _items self = Some items → name ∈ items.*1 →
  1 ≤ q1 ≤ max_per_item self → 1 ≤ q2 ≤ max_per_item self →
  (adjust_quantity self name q1;; adjust_quantity self name q2) h
  = adjust_quantity self name q2 h.
Proof.
  intros Hl Hin Hq1 Hq2.
  destruct (first_occurrence _ _ Hin) as (pre & e & post & Hitems & Hpre).
  rewrite bind_run.
  rewrite (adjust_quantity_present_run _ _ _ Hl _ _ _ _ _ Hq1 Hitems Hpre).
  rewrite (adjust_quantity_present_run _ _ _ Hl _ _ _ _ _ Hq2 Hitems Hpre).
  erewrite adjust_quantity_present_run;
    [| apply lookup_insert_eq | done | reflexivity | done].
  by rewrite insert_insert_eq.
Qed.

Lemma adjust_quantity_last_wins_witness :
  ({[ 1%positive := [("Apple", 4)] ]} : heap) !! _items cart = Some [("Apple", 4)]
  ∧ "Apple" ∈ [("Apple", 4)].*1
  ∧ 1 ≤ 7 ≤ max_per_item cart ∧ 1 ≤ 2 ≤ max_per_item cart
  ∧ (adjust_quantity cart "Apple" 7;; adjust_quantity cart "Apple" 2)
      {[ 1%positive := [("Apple", 4)] ]}
    = adjust_quantity cart "Apple" 2 {[ 1%positive := [("Apple", 4)] ]}.
Proof.
  assert (Hin : "Apple" ∈ [("Apple", 4)].*1) by (simpl; left).
  assert (H7 : 1 ≤ 7 ≤ max_per_item cart) by (simpl; lia).
  assert (H2 : 1 ≤ 2 ≤ max_per_item cart) by (simpl; lia).
  split; [reflexivity|]. split; [exact Hin|]. split; [exact H7|]. split; [exact H2|].
  apply (adjust_quantity_last_wins cart _ [("Apple", 4)] "Apple" 7 2);
    [reflexivity | exact Hin | exact H7 | exact H2].
Defined.

(** *** Several carts, several names *)

Lemma do_calls_frame a (cs : list call) : ∀ (h : heap) xa (l : loc),
  h !! _items a = Some xa → l ≠ _items a →
  ∃ h', do_calls a cs h = (Ret tt, h') ∧ h' !! l = h !! l.
Proof.
  intros h xa l Hl Hne.
  destruct (do_calls_run a cs h xa Hl) as (xa' & Hrun & _).
  exists (<[_items a := xa']> h). split; [done|]. by rewrite lookup_insert_ne.
Qed.

(** X7. Every cart has a list of its own: two carts built one after the other
    do not share their lines, and whatever calls are made on the first,
    the second stays as it was built. *)
Theorem carts_independent (Ma Mb : Z) (cs : list call) (h0 : heap) :
  ∃ a b h,
    (a ← __init__ Ma; b ← __init__ Mb; do_calls a cs;; mret (a, b)) h0
      = (Ret (a, b), h)
    ∧ _items a ≠ _items b
    ∧ is_Some (h !! _items a)
    ∧ h !! _items b = Some [].
Proof.
  rewrite bind_run, init_run. simpl. rewrite bind_run, init_run. simpl.
  set (la := fresh (dom h0)).
  set (h1 := <[la := []]> h0).
  set (lb := fresh (dom h1)).
  set (a := {| _items := la; max_per_item := Ma |}).
  set (b := {| _items := lb; max_per_item := Mb |}).
  assert (Ha : <[lb := []]> h1 !! la = Some []).
  { rewrite lookup_insert_ne; [apply lookup_insert_eq|].
    intros Heq. pose proof (fresh_not_allocated h1) as Hf. fold lb in Hf.
    rewrite Heq in Hf. unfold h1 in Hf. by rewrite lookup_insert_eq in Hf. }
  assert (Hne : la ≠ lb).
  { intros Heq. pose proof (fresh_not_allocated h1) as Hf. fold lb in Hf.
    rewrite <- Heq in Hf. unfold h1 in Hf. by rewrite lookup_insert_eq in Hf. }
  destruct (do_calls_run a cs (<[lb := []]> h1) [] Ha) as (xa & Hrun & _).
  rewrite bind_run, Hrun. simpl.
  exists a, b, (<[la := xa]> (<[lb := []]> h1)). split_and!; [done|done| |].
  - rewrite lookup_insert_eq. eauto.
  - rewrite lookup_insert_ne by done. apply lookup_insert_eq.
Qed.

Lemma other_lines_app name (xs ys : list CartLine) :
  other_lines name (xs ++ ys) = other_lines name xs ++ other_lines name ys.
Proof. unfold other_lines. apply filter_app. Qed.

Lemma other_lines_cons_same name q (xs : list CartLine) :
  other_lines name ((name, q) :: xs) = other_lines name xs.
Proof. unfold other_lines. by rewrite filter_cons_False by (simpl; tauto). Qed.

Lemma other_lines_replace name pre q q' post :
  other_lines name (pre ++ ((name, q) :: post))
  = other_lines name (pre ++ ((name, q') :: post)).
Proof. by rewrite !other_lines_app, !other_lines_cons_same. Qed.

(** X8. A call about one name never touches the lines of the other names:
    after [add_item], [remove_item] or [adjust_quantity] for [name], the
    lines with another name are the same, in the same order. *)
Theorem other_names_untouched self h items name qty :
  h !! _items self = Some items →
  (∃ r items', add_item self name qty h = (Ret r, <[_items self := items']> h)
               ∧ other_lines name items' = other_lines name items)
  ∧ (∃ r items', remove_item self name h = (Ret r, <[_items self := items']> h)
                 ∧ other_lines name items' = other_lines name items)
  ∧ (∃ r items', adjust_quantity self name qty h
                   = (Ret r, <[_items self := items']> h)
                 ∧ other_lines name items' = other_lines name items).
Proof.
  intros Hl.
  assert (Hid : <[_items self := items]> h = h) by by apply insert_id.
  destruct (decide (name ∈ items.*1)) as [Hin|Hout].
  - destruct (first_occurrence _ _ Hin) as (pre & e & post & Hitems & Hpre).
    split_and!.
    + destruct (Z.lt_ge_cases qty 1) as [Hq|Hq].
      * rewrite add_item_rejected_run by done. eexists _, items.
        by rewrite Hid.
      * rewrite (add_item_present_run _ _ _ Hl _ _ _ _ _ Hq Hitems Hpre).
        eexists _, _. split; [done|]. subst items. apply other_lines_replace.
    + rewrite (remove_item_present_run _ _ _ Hl _ _ _ _ Hitems Hpre).
      eexists _, _. split; [done|]. subst items.
      by rewrite !other_lines_app, other_lines_cons_same.
    + destruct (decide (1 ≤ qty ≤ max_per_item self)) as [Hq|Hq].
      * rewrite (adjust_quantity_present_run _ _ _ Hl _ _ _ _ _ Hq Hitems Hpre).
        eexists _, _. split; [done|]. subst items. apply other_lines_replace.
      * rewrite (adjust_quantity_range_run _ _ _ Hl _ _ Hin) by lia.
        eexists _, items. by rewrite Hid.
  - split_and!.
    + destruct (Z.lt_ge_cases qty 1) as [Hq|Hq].
      * rewrite add_item_rejected_run by done. eexists _, items.
        by rewrite Hid.
      * rewrite (add_item_absent_run _ _ _ Hl _ _ Hq Hout).
        eexists _, _. split; [done|].
        by rewrite other_lines_app, other_lines_cons_same, app_nil_r.
    + rewrite (remove_item_absent_run _ _ _ Hl _ Hout). exists false, items.
      by rewrite Hid.
    + rewrite (adjust_quantity_absent_run _ _ _ Hl _ _ Hout).
      eexists _, items. by rewrite Hid.
Qed.

Lemma other_names_untouched_witness :
  ({[ 1%positive := [("Pear", 2); ("Apple", 8); ("Kiwi", 1)] ]} : heap) !! _items cart
    = Some [("Pear", 2); ("Apple", 8); ("Kiwi", 1)]
  ∧ ∃ r items',
      remove_item cart "Apple" {[ 1%positive := [("Pear", 2); ("Apple", 8); ("Kiwi", 1)] ]}
        = (Ret r, <[_items cart := items']>
                    {[ 1%positive := [("Pear", 2); ("Apple", 8); ("Kiwi", 1)] ]})
      ∧ other_lines "Apple" items'
        = other_lines "Apple" [("Pear", 2); ("Apple", 8); ("Kiwi", 1)].
Proof.
  split; [reflexivity|].
  apply (other_names_untouched cart _ [("Pear", 2); ("Apple", 8); ("Kiwi", 1)] "Apple" 0).
  reflexivity.
Defined.

(** *** Reading a quantity back *)

Lemma find_index_from_shift i items name :
  find_index_from (S i) items name = S <$> find_index_from i items name.
Proof.
  revert i. induction items as [|[n q] rest IH]; intros i; simpl; [done|].
  destruct (String.eqb n name); [done|]. apply IH.
Qed.

Lemma quantity_of_cons name n q rest :
  quantity_of name ((n, q) :: rest)
  = if String.eqb n name then q else quantity_of name rest.
Proof.
  unfold quantity_of. simpl. destruct (String.eqb n name); [done|].
  rewrite find_index_from_shift. by destruct (find_index_from 0 rest name).
Qed.

Lemma quantity_of_absent name items :
  name ∉ items.*1 → quantity_of name items = 0.
Proof.
  intros Hout. unfold quantity_of.
  by rewrite (proj2 (find_index_from_None _ _ _) Hout).
Qed.

Lemma quantity_of_first name pre q post :
  name ∉ pre.*1 → quantity_of name (pre ++ ((name, q) :: post)) = q.
Proof.
  intros Hpre. unfold quantity_of.
  by rewrite find_index_from_first, lookup_first_occurrence.
Qed.

Lemma quantity_of_app_absent name pre rest :
  name ∉ pre.*1 → quantity_of name (pre ++ rest) = quantity_of name rest.
Proof.
  induction pre as [|[n q] pre IH]; simpl; [done|].
  rewrite not_elem_of_cons. intros [Hne Hpre].
  rewrite quantity_of_cons. destruct (String.eqb_spec n name); [congruence|].
  by apply IH.
Qed.

Lemma add_item_quantity_run self h items name qty :
  h !! _items self = Some items → 1 ≤ qty →
  ∃ msg items',
    add_item self name qty h = (Ret (true, msg), <[_items self := items']> h)
    ∧ quantity_of name items'
      = Z.min (quantity_of name items + qty) (max_per_item self).
Proof.
  intros Hl Hq. destruct (decide (name ∈ items.*1)) as [Hin|Hout].
  - destruct (first_occurrence _ _ Hin) as (pre & e & post & Hitems & Hpre).
    rewrite (add_item_present_run _ _ _ Hl _ _ _ _ _ Hq Hitems Hpre).
    eexists _, _. split; [done|]. subst items. by rewrite !quantity_of_first.
  - rewrite (add_item_absent_run _ _ _ Hl _ _ Hq Hout).
    eexists _, _. split; [done|].
    rewrite quantity_of_app_absent by done.
    rewrite (quantity_of_absent name items) by done.
    rewrite quantity_of_cons, String.eqb_refl. f_equal.
Qed.

(** X9. What [add_item] does to the quantity of its name, reading an absent
    name as quantity 0: it adds [qty] and caps the sum at [max_per_item]. *)
Theorem add_item_quantity self h items name qty :
  h !! _items self = Some items → 1 ≤ qty →
  ∃ msg items',
    add_item self name qty h = (Ret (true, msg), <[_items self := items']> h)
    ∧ quantity_of name items'
      = Z.min (quantity_of name items + qty) (max_per_item self).
Proof. apply add_item_quantity_run. Qed.

Lemma add_item_quantity_witness :
  ({[ 1%positive := [("Pear", 2); ("Apple", 8)] ]} : heap) !! _items cart
    = Some [("Pear", 2); ("Apple", 8)]
  ∧ 1 ≤ 5
  ∧ ∃ msg items',
      add_item cart "Apple" 5 {[ 1%positive := [("Pear", 2); ("Apple", 8)] ]}
        = (Ret (true, msg),
           <[_items cart := items']> {[ 1%positive := [("Pear", 2); ("Apple", 8)] ]})
      ∧ quantity_of "Apple" items'
        = Z.min (quantity_of "Apple" [("Pear", 2); ("Apple", 8)] + 5)
                (max_per_item cart).
Proof.
  split_and!; [reflexivity | lia |].
  apply (add_item_quantity cart _ [("Pear", 2); ("Apple", 8)] "Apple" 5);
    [reflexivity | lia].
Defined.

(** X10. An accepted [adjust_quantity(name, qty)] is read back as [qty], and a
    [remove_item(name)] on a cart with unique names as 0; the quantity of
    every other name is what it was. *)
Theorem quantity_read_back self h items name qty :
  h !! _items self = Some items → unique_names items → name ∈ items.*1 →
  1 ≤ qty ≤ max_per_item self →
  (∃ msg items',
     adjust_quantity self name qty h
       = (Ret (true, msg), <[_items self := items']> h)
     ∧ quantity_of name items' = qty
     ∧ ∀ other, other ≠ name → quantity_of other items' = quantity_of other items)
  ∧ (∃ items',
       remove_item self name h = (Ret true, <[_items self := items']> h)
       ∧ quantity_of name items' = 0
       ∧ ∀ other, other ≠ name → quantity_of other items' = quantity_of other items).
Proof.
  intros Hl Hu Hin Hq.
  destruct (first_occurrence _ _ Hin) as (pre & e & post & Hitems & Hpre).
  assert (Hskip : ∀ other q', other ≠ name →
    quantity_of other (pre ++ ((name, q') :: post)) = quantity_of other (pre ++ post)).
  { intros other q' Hne. clear -Hne.
    induction pre as [|[n q] pre IH]; simpl.
    - rewrite quantity_of_cons. destruct (String.eqb_spec name other); congruence.
    - rewrite !quantity_of_cons. by destruct (String.eqb n other). }
  split.
  - rewrite (adjust_quantity_present_run _ _ _ Hl _ _ _ _ _ Hq Hitems Hpre).
    eexists _, _. split_and!; [done| |].
    + by apply quantity_of_first.
    + intros other Hne. subst items. by rewrite !Hskip.
  - rewrite (remove_item_present_run _ _ _ Hl _ _ _ _ Hitems Hpre).
    eexists. split_and!; [done| |].
    + apply quantity_of_absent. subst items. unfold unique_names in Hu.
      rewrite fmap_app, fmap_cons, NoDup_app, NoDup_cons in Hu. simpl in Hu.
      destruct Hu as (_ & _ & Hpost & _).
      rewrite fmap_app, elem_of_app. tauto.
    + intros other Hne. subst items. by rewrite Hskip.
Qed.

Lemma quantity_read_back_witness :
  ({[ 1%positive := [("Pear", 2); ("Apple", 8)] ]} : heap) !! _items cart
    = Some [("Pear", 2); ("Apple", 8)]
  ∧ unique_names [("Pear", 2); ("Apple", 8)]
  ∧ "Apple" ∈ [("Pear", 2); ("Apple", 8)].*1
  ∧ 1 ≤ 3 ≤ max_per_item cart
  ∧ ∃ msg items',
      adjust_quantity cart "Apple" 3 {[ 1%positive := [("Pear", 2); ("Apple", 8)] ]}
        = (Ret (true, msg),
           <[_items cart := items']> {[ 1%positive := [("Pear", 2); ("Apple", 8)] ]})
      ∧ quantity_of "Apple" items' = 3
      ∧ ∀ other, other ≠ "Apple" →
          quantity_of other items' = quantity_of other [("Pear", 2); ("Apple", 8)].
Proof.
  assert (Hu : unique_names [("Pear", 2); ("Apple", 8)]).
  { unfold unique_names. apply (bool_decide_unpack _). vm_compute. exact I. }
  assert (Hin : "Apple" ∈ [("Pear", 2); ("Apple", 8)].*1) by (simpl; right; left).
  assert (Hq : 1 ≤ 3 ≤ max_per_item cart) by (simpl; lia).
  split; [reflexivity|]. split; [exact Hu|]. split; [exact Hin|]. split; [exact Hq|].
  apply (quantity_read_back cart _ [("Pear", 2); ("Apple", 8)] "Apple" 3);
    [reflexivity | exact Hu | exact Hin | exact Hq].
Defined.

(** ** Validation of the quantities the screens pass *)

Lemma forall_chars_impl (p q : ascii → bool) s :
  (∀ c, p c = true → q c = true) →
  forall_chars p s = true → forall_chars q s = true.
Proof.
  intros Hpq. induction s as [|c rest IH]; simpl; [done|].
  intros [Hc Hrest]%andb_true_iff. by rewrite (Hpq c Hc), IH.
Qed.

Lemma lstrip_no_space s :
  forall_chars (λ c, negb (isspace c)) s = true → lstrip s = s.
Proof.
  destruct s as [|c rest]; simpl; [done|].
  intros [Hc _]%andb_true_iff. by apply negb_true_iff in Hc as ->.
Qed.

Lemma rstrip_no_space s :
  forall_chars (λ c, negb (isspace c)) s = true → rstrip s = s.
Proof.
  induction s as [|c rest IH]; simpl; [done|].
  intros [Hc Hrest]%andb_true_iff. rewrite IH by done.
  destruct rest; [|done]. by apply negb_true_iff in Hc as ->.
Qed.

Lemma strip_no_space s :
  forall_chars (λ c, negb (isspace c)) s = true → strip s = s.
Proof.
  intros Hs. unfold strip. by rewrite lstrip_no_space, rstrip_no_space.
Qed.

Lemma string_of_uint_decimal d :
  forall_chars isdecimal (NilEmpty.string_of_uint d) = true.
Proof. induction d; simpl; by rewrite ?IHd. Qed.

Lemma decimal_value_uint_acc d : ∀ acc : positive,
  decimal_value (Z.pos acc) (NilEmpty.string_of_uint d)
  = Z.pos (Pos.of_uint_acc d acc).
Proof.
  induction d; intros acc; simpl; [done|..]; rewrite <- IHd; f_equal; lia.
Qed.

Lemma decimal_value_uint d :
  decimal_value 0 (NilEmpty.string_of_uint d) = Z.of_N (Pos.of_uint d).
Proof.
  induction d; simpl; [done | done |..]; by rewrite <- decimal_value_uint_acc.
Qed.

Lemma string_of_uint_nonempty d :
  d ≠ Decimal.Nil → truthy (NilEmpty.string_of_uint d) = true.
Proof. by destruct d. Qed.

Lemma str_int_pos p :
  str_int (Z.pos p) = NilEmpty.string_of_uint (Pos.to_uint p).
Proof.
  unfold str_int. simpl. unfold NilZero.string_of_uint.
  pose proof (DecimalPos.Unsigned.to_uint_nonnil p). by destruct (Pos.to_uint p).
Qed.

Lemma str_int_minus p :
  str_int (Z.neg p) = String "-" (NilEmpty.string_of_uint (Pos.to_uint p)).
Proof.
  unfold str_int. simpl. unfold NilZero.string_of_uint.
  pose proof (DecimalPos.Unsigned.to_uint_nonnil p). by destruct (Pos.to_uint p).
Qed.

(** [str(n)] of a natural number is made of decimal digits, and they
    denote [n]. *)
Lemma str_int_decimal z :
  0 ≤ z → decimal_digits (str_int z) = true ∧ decimal_value 0 (str_int z) = z.
Proof.
  destruct z as [|p|p]; [done| |lia]. intros _. rewrite str_int_pos. split.
  - unfold decimal_digits.
    rewrite string_of_uint_nonempty by apply DecimalPos.Unsigned.to_uint_nonnil.
    apply string_of_uint_decimal.
  - by rewrite decimal_value_uint, DecimalPos.Unsigned.of_to.
Qed.

Lemma str_int_negative z : z < 0 → decimal_digits (str_int z) = false.
Proof. destruct z as [|p|p]; [lia..|]. intros _. by rewrite str_int_minus. Qed.

Lemma str_int_chars z :
  forall_chars (λ c, isdecimal c || Ascii.eqb c "-") (str_int z) = true.
Proof.
  assert (Hd : ∀ d, forall_chars (λ c, isdecimal c || Ascii.eqb c "-")
                      (NilEmpty.string_of_uint d) = true).
  { intros d. apply forall_chars_impl with isdecimal; [|apply string_of_uint_decimal].
    by intros c ->. }
  destruct z as [|p|p]; [done| |].
  - by rewrite str_int_pos.
  - rewrite str_int_minus. simpl. apply Hd.
Qed.

Lemma str_int_strip z : strip (str_int z) = str_int z.
Proof.
  apply strip_no_space, forall_chars_impl with (λ c, isdecimal c || Ascii.eqb c "-");
    [|apply str_int_chars].
  intros c [Hc|Hc]%orb_true_iff.
  - by rewrite isdecimal_not_space.
  - by apply Ascii.eqb_eq in Hc as ->.
Qed.

Lemma str_int_no_superscript z : no_superscript (str_int z) = true.
Proof.
  apply forall_chars_impl with (λ c, isdecimal c || Ascii.eqb c "-");
    [|apply str_int_chars].
  intros c [Hc|Hc]%orb_true_iff.
  - by rewrite Hc.
  - by apply Ascii.eqb_eq in Hc as ->.
Qed.


Lemma validate_integer_run cart item_name (q : Z) (h : heap) :
  truthy (strip item_name) = true →
  validate_order_fields cart item_name (PyInt q) h
  = (Ret (if q <? 0 then (false, "Quantity must be a whole number.")
          else if q =? 0 then (false, "Quantity must be greater than zero.")
          else if q >? max_per_item cart
          then (false, "Quantity must be no more than "
                         +:+ str_int (max_per_item cart) +:+ ".")
          else (true, "")), h).
Proof.
  intros Hname.
  rewrite validate_order_fields_meets_spec by apply str_int_no_superscript.
  unfold validate_order_fields_spec. rewrite Hname. simpl.
  rewrite str_int_strip. destruct (Z.ltb_spec q 0) as [Hq|Hq].
  - by rewrite str_int_negative.
  - destruct (str_int_decimal q Hq) as [-> ->]. simpl.
    destruct (Z.eqb_spec q 0) as [->|Hne]; [done|].
    by destruct (Z.leb_spec q 0); [lia|].
Qed.






(** ** The quantity popup *)

Lemma quantity_popup_press_range cart w b :
  1 ≤ QuantityPopup.qty_var w ≤ max_per_item cart →
  1 ≤ QuantityPopup.qty_var (QuantityPopup.press cart w b) ≤ max_per_item cart.
Proof.
  intros Hw. destruct b; simpl.
  - unfold QuantityPopup.increase.
    destruct (Z.ltb_spec (QuantityPopup.qty_var w) (max_per_item cart)); simpl; lia.
  - unfold QuantityPopup.decrease.
    destruct (Z.gtb_spec (QuantityPopup.qty_var w) 1); simpl; lia.
Qed.

Lemma quantity_popup_presses_range cart bs : ∀ w,
  1 ≤ QuantityPopup.qty_var w ≤ max_per_item cart →
  1 ≤ QuantityPopup.qty_var (QuantityPopup.presses cart bs w) ≤ max_per_item cart.
Proof.
  unfold QuantityPopup.presses.
  induction bs as [|b bs IH]; intros w Hw; simpl; [done|].
  by apply IH, quantity_popup_press_range.
Qed.

(** X13. Whatever the customer presses, the quantity of the popup stays between
    1 and [max_per_item]; "+" at the cap leaves it there and shows the
    limit warning, "-" at 1 leaves it at 1. *)
Theorem quantity_popup_in_range cart feedback button bs :
  1 ≤ max_per_item cart →
  let w := QuantityPopup.presses cart bs
             (QuantityPopup.open_quantity_popup feedback button) in
  1 ≤ QuantityPopup.qty_var w ≤ max_per_item cart
  ∧ (QuantityPopup.qty_var w = max_per_item cart →
       QuantityPopup.qty_var (QuantityPopup.increase cart w) = max_per_item cart
       ∧ QuantityPopup.warning_label (QuantityPopup.increase cart w)
         = "Max limit is " +:+ str_int (max_per_item cart) +:+ " per item.")
  ∧ (QuantityPopup.qty_var w = 1 → QuantityPopup.decrease w = w).
Proof.
  intros HM w.
  assert (Hw : 1 ≤ QuantityPopup.qty_var w ≤ max_per_item cart).
  { apply quantity_popup_presses_range. simpl. lia. }
  clearbody w. split_and!; [apply Hw..| |].
  - intros Hq. unfold QuantityPopup.increase.
    by destruct (Z.ltb_spec (QuantityPopup.qty_var w) (max_per_item cart)); [lia|].
  - intros Hq. unfold QuantityPopup.decrease.
    by destruct (Z.gtb_spec (QuantityPopup.qty_var w) 1); [lia|].
Qed.

Lemma quantity_popup_in_range_witness :
  1 ≤ max_per_item cart
  ∧ 1 ≤ QuantityPopup.qty_var
          (QuantityPopup.presses cart
             [QuantityPopup.Minus; QuantityPopup.Plus; QuantityPopup.Plus]
             (QuantityPopup.open_quantity_popup "" "Add"))
      ≤ max_per_item cart.
Proof.
  split; [simpl; lia|].
  apply (quantity_popup_in_range cart "" "Add"
           [QuantityPopup.Minus; QuantityPopup.Plus; QuantityPopup.Plus]).
  simpl; lia.
Defined.

Lemma validate_blank_run cart name quantity (h : heap) :
  blank name →
  validate_order_fields cart name quantity h
  = (Ret (false, "Item name is required."), h).
Proof.
  unfold blank, validate_order_fields. intros ->. by rewrite orb_true_r.
Qed.

(** X14. "Add to Cart" always goes through for a name that is not blank: the
    quantity of the popup passes the validation, [add_item] is called with
    it, the popup closes and the feedback names that quantity; the cart's
    quantity of the name grows by it, up to [max_per_item]. *)
Theorem quantity_popup_confirm cart name h items feedback button bs :
  truthy (strip name) = true → 1 ≤ max_per_item cart →
  h !! _items cart = Some items →
  let w := QuantityPopup.presses cart bs
             (QuantityPopup.open_quantity_popup feedback button) in
  ∃ items',
    QuantityPopup.confirm cart name w h
    = (Ret {| QuantityPopup.qty_var := QuantityPopup.qty_var w;
              QuantityPopup.warning_label := QuantityPopup.warning_label w;
              QuantityPopup.feedback_label :=
                str_int (QuantityPopup.qty_var w) +:+ " "
                  +:+ String times_sign " " +:+ name +:+ " added to cart!";
              QuantityPopup.parent_button := "Added!";
              QuantityPopup.qty_window := false |},
       <[_items cart := items']> h)
    ∧ quantity_of name items'
      = Z.min (quantity_of name items + QuantityPopup.qty_var w)
              (max_per_item cart).
Proof.
  intros Hname HM Hl w.
  assert (Hw : 1 ≤ QuantityPopup.qty_var w ≤ max_per_item cart).
  { apply quantity_popup_presses_range. simpl. lia. }
  clearbody w. unfold QuantityPopup.confirm.
  rewrite bind_run, validate_integer_run by done.
  destruct (Z.ltb_spec (QuantityPopup.qty_var w) 0); [lia|].
  destruct (Z.eqb_spec (QuantityPopup.qty_var w) 0); [lia|].
  destruct (Z.gtb_spec (QuantityPopup.qty_var w) (max_per_item cart)); [lia|].
  simpl. rewrite bind_run.
  destruct (add_item_quantity_run cart h items name (QuantityPopup.qty_var w))
    as (msg & items' & Hrun & Hqty); [done|lia|].
  rewrite Hrun. by exists items'.
Qed.

Lemma quantity_popup_confirm_witness :
  truthy (strip "Apple") = true ∧ 1 ≤ max_per_item cart
  ∧ ({[ 1%positive := [("Apple", 9)] ]} : heap) !! _items cart = Some [("Apple", 9)]
  ∧ ∃ items',
      (QuantityPopup.confirm cart "Apple"
         (QuantityPopup.presses cart [QuantityPopup.Plus; QuantityPopup.Plus]
            (QuantityPopup.open_quantity_popup "" "Add"))
         {[ 1%positive := [("Apple", 9)] ]}).2
      = <[_items cart := items']> {[ 1%positive := [("Apple", 9)] ]}
      ∧ quantity_of "Apple" items' = 10.
Proof.
  split; [reflexivity|]. split; [simpl; lia|]. split; [reflexivity|].
  destruct (quantity_popup_confirm cart "Apple" {[ 1%positive := [("Apple", 9)] ]}
              [("Apple", 9)] "" "Add" [QuantityPopup.Plus; QuantityPopup.Plus])
    as (items' & Hrun & Hqty); [reflexivity | simpl; lia | reflexivity |].
  exists items'. rewrite Hrun. split; [reflexivity|]. rewrite Hqty. reflexivity.
Defined.

(** X15. For a blank name, as a catalogue row without a name gives, "Add to
    Cart" is refused: the popup shows "Item name is required." and stays
    open, and the store is unchanged. *)
Theorem quantity_popup_confirm_blank cart name w (h : heap) :
  blank name →
  QuantityPopup.confirm cart name w h
  = (Ret {| QuantityPopup.qty_var := QuantityPopup.qty_var w;
            QuantityPopup.warning_label := "Item name is required.";
            QuantityPopup.feedback_label := QuantityPopup.feedback_label w;
            QuantityPopup.parent_button := QuantityPopup.parent_button w;
            QuantityPopup.qty_window := QuantityPopup.qty_window w |}, h).
Proof.
  intros Hblank. unfold QuantityPopup.confirm.
  by rewrite bind_run, validate_blank_run.
Qed.

Lemma quantity_popup_confirm_blank_witness :
  blank "  "
  ∧ QuantityPopup.confirm cart "  " (QuantityPopup.open_quantity_popup "" "Add") ∅
    = (Ret {| QuantityPopup.qty_var := 1;
              QuantityPopup.warning_label := "Item name is required.";
              QuantityPopup.feedback_label := "";
              QuantityPopup.parent_button := "Add";
              QuantityPopup.qty_window := true |}, ∅).
Proof.
  split; [reflexivity|].
  apply (quantity_popup_confirm_blank cart "  "
           (QuantityPopup.open_quantity_popup "" "Add") ∅).
  reflexivity.
Defined.

(** ** The cart window *)

Lemma refresh_cart_run cart w (h : heap) items :
  h !! _items cart = Some items →
  OrderWindow.refresh_cart cart w h
  = (Ret {| OrderWindow.cart_frame := OrderWindow.children items;
            OrderWindow.message_label := OrderWindow.message_label w |},
     <[fresh (dom h) := items]> h).
Proof.
  intros Hl. unfold OrderWindow.refresh_cart.
  rewrite bind_run, (to_list_run _ _ _ Hl), bind_run.
  by erewrite list_read_run by apply lookup_insert_eq.
Qed.

Lemma snapshot_keeps_cart cart (h : heap) (items xs : list CartLine) :
  h !! _items cart = Some items →
  <[fresh (dom h) := xs]> h !! _items cart = Some items.
Proof.
  intros Hl. rewrite lookup_insert_ne; [done|].
  intros Heq. pose proof (fresh_not_allocated h). congruence.
Qed.

(** X16. "Remove" on a row of the cart window, in a cart with unique names:
    the line of that row goes, the other lines stay in their order, the
    frame shows them (or the notice of an empty cart) and the message
    names the removed item. *)
Theorem order_window_remove cart w (h : heap) items i n q :
  h !! _items cart = Some items → unique_names items →
  items !! i = Some (n, q) →
  ∃ h',
    OrderWindow.on_remove cart i n w h
    = (Ret {| OrderWindow.cart_frame :=
                OrderWindow.children (other_lines n items);
              OrderWindow.message_label := n +:+ " removed." |}, h')
    ∧ h' !! _items cart = Some (other_lines n items).
Proof.
  intros Hl Hu Hi. unfold OrderWindow.on_remove.
  rewrite bind_run, (remove_item_unique _ _ _ _ Hl Hu).
  rewrite bool_decide_eq_true_2.
  2:{ apply list_elem_of_fmap. exists (n, q). split; [done|].
      by apply list_elem_of_lookup_2 with i. }
  rewrite bind_run.
  erewrite refresh_cart_run by apply lookup_insert_eq. simpl.
  eexists. split; [done|]. apply snapshot_keeps_cart, lookup_insert_eq.
Qed.

Lemma order_window_remove_witness :
  ({[ 1%positive := [("Pear", 2); ("Apple", 8)] ]} : heap) !! _items cart
    = Some [("Pear", 2); ("Apple", 8)]
  ∧ unique_names [("Pear", 2); ("Apple", 8)]
  ∧ [("Pear", 2); ("Apple", 8)] !! 0%nat = Some ("Pear", 2)
  ∧ ∃ h',
      OrderWindow.on_remove cart 0 "Pear"
        {| OrderWindow.cart_frame :=
             OrderWindow.children [("Pear", 2); ("Apple", 8)];
           OrderWindow.message_label := "" |}
        {[ 1%positive := [("Pear", 2); ("Apple", 8)] ]}
      = (Ret {| OrderWindow.cart_frame := [OrderWindow.Row "Apple x 8" 0 "Apple"];
                OrderWindow.message_label := "Pear removed." |}, h')
      ∧ h' !! _items cart = Some [("Apple", 8)].
Proof.
  assert (Hu : unique_names [("Pear", 2); ("Apple", 8)]).
  { unfold unique_names. apply (bool_decide_unpack _). vm_compute. exact I. }
  split; [reflexivity|]. split; [exact Hu|]. split; [reflexivity|].
  exact (order_window_remove cart _ {[ 1%positive := [("Pear", 2); ("Apple", 8)] ]}
           [("Pear", 2); ("Apple", 8)] 0 "Pear" 2 eq_refl Hu eq_refl).
Defined.

(** X17. "Submit Order": on an empty cart it only says "Cart is empty!"; when
    the customer declines, nothing changes; when the customer accepts, the
    cart is emptied, the frame shows the notice of an empty cart and the
    message says the order has been submitted. *)
Theorem submit_order cart w (h : heap) items :
  h !! _items cart = Some items →
  (items = [] → ∀ answer,
     OrderWindow.submit_order_action cart answer w h
     = (Ret {| OrderWindow.cart_frame := OrderWindow.cart_frame w;
               OrderWindow.message_label := "Cart is empty!" |}, h))
  ∧ (items ≠ [] →
     OrderWindow.submit_order_action cart false w h = (Ret w, h)
     ∧ ∃ h',
         OrderWindow.submit_order_action cart true w h
         = (Ret {| OrderWindow.cart_frame := [OrderWindow.Notice "Cart is empty."];
                   OrderWindow.message_label := "Your order has been submitted!" |},
            h')
         ∧ h' !! _items cart = Some []).
Proof.
  intros Hl. unfold OrderWindow.submit_order_action. split.
  - intros -> answer. by rewrite bind_run, (is_empty_run _ _ _ Hl).
  - intros Hne. rewrite !bind_run, (is_empty_run _ _ _ Hl).
    rewrite bool_decide_eq_false_2 by done. simpl. split; [done|].
    rewrite bind_run, (clear_run _ _ _ Hl), bind_run.
    erewrite refresh_cart_run by apply lookup_insert_eq. simpl.
    eexists. split; [done|]. apply snapshot_keeps_cart, lookup_insert_eq.
Qed.

Lemma submit_order_witness :
  ({[ 1%positive := [("Pear", 2)] ]} : heap) !! _items cart = Some [("Pear", 2)]
  ∧ [("Pear", 2)] ≠ ([] : list CartLine)
  ∧ ∃ h',
      OrderWindow.submit_order_action cart true
        {| OrderWindow.cart_frame := OrderWindow.children [("Pear", 2)];
           OrderWindow.message_label := "" |}
        {[ 1%positive := [("Pear", 2)] ]}
      = (Ret {| OrderWindow.cart_frame := [OrderWindow.Notice "Cart is empty."];
                OrderWindow.message_label := "Your order has been submitted!" |},
         h')
      ∧ h' !! _items cart = Some [].
Proof.
  split; [reflexivity|]. split; [discriminate|].
  apply (submit_order cart _ {[ 1%positive := [("Pear", 2)] ]} [("Pear", 2)]);
    [reflexivity | discriminate].
Defined.

(** ** The popup that adjusts a quantity *)

Lemma adjust_popup_press_range cart a b :
  1 ≤ AdjustPopup.qty_var a ≤ max_per_item cart →
  1 ≤ AdjustPopup.qty_var (AdjustPopup.press cart a b) ≤ max_per_item cart.
Proof.
  intros Ha. destruct b; simpl.
  - unfold AdjustPopup.inc.
    destruct (Z.ltb_spec (AdjustPopup.qty_var a) (max_per_item cart)); simpl; lia.
  - unfold AdjustPopup.dec.
    destruct (Z.gtb_spec (AdjustPopup.qty_var a) 1); simpl; lia.
Qed.

Lemma adjust_popup_presses_range cart bs : ∀ a,
  1 ≤ AdjustPopup.qty_var a ≤ max_per_item cart →
  1 ≤ AdjustPopup.qty_var (AdjustPopup.presses cart bs a) ≤ max_per_item cart.
Proof.
  unfold AdjustPopup.presses.
  induction bs as [|b bs IH]; intros a Ha; simpl; [done|].
  by apply IH, adjust_popup_press_range.
Qed.

(** X18. "Adjust Quantity" on the row of a line, in a cart whose quantities are
    within the cap: the popup starts at the quantity of that line, "+" and
    "-" keep it between 1 and [max_per_item], and "Confirm" is then always
    accepted: that line gets exactly the quantity of the popup, the other
    lines stay, the popup closes and the frame shows the new lines. *)
Theorem adjust_popup_confirm cart w (h : heap) items pre n q post bs :
  h !! _items cart = Some items → within_cap (max_per_item cart) items →
  items = pre ++ ((n, q) :: post) → n ∉ pre.*1 →
  let a := AdjustPopup.presses cart bs
             {| AdjustPopup.qty_var := q; AdjustPopup.alert := "";
                AdjustPopup.adj_win := true |} in
  1 ≤ AdjustPopup.qty_var a ≤ max_per_item cart
  ∧ ∃ h',
      (a0 ← AdjustPopup.on_adjust cart (length pre) n;
       AdjustPopup.confirm_adj cart n (AdjustPopup.presses cart bs a0) w) h
      = (Ret ({| AdjustPopup.qty_var := AdjustPopup.qty_var a;
                 AdjustPopup.alert := AdjustPopup.alert a;
                 AdjustPopup.adj_win := false |},
              {| OrderWindow.cart_frame :=
                   OrderWindow.children
                     (pre ++ ((n, AdjustPopup.qty_var a) :: post));
                 OrderWindow.message_label := n +:+ " quantity updated." |}),
         h')
      ∧ h' !! _items cart = Some (pre ++ ((n, AdjustPopup.qty_var a) :: post)).
Proof.
  intros Hl Hcap Hitems Hpre a.
  assert (Hq : 1 ≤ q ≤ max_per_item cart).
  { unfold within_cap in Hcap. subst items.
    rewrite Forall_app, Forall_cons in Hcap. simpl in Hcap. tauto. }
  assert (Ha : 1 ≤ AdjustPopup.qty_var a ≤ max_per_item cart)
    by by apply adjust_popup_presses_range.
  split; [done|].
  unfold AdjustPopup.on_adjust.
  rewrite !bind_run, (to_list_run _ _ _ Hl), bind_run.
  erewrite list_getitem_run;
    [| apply lookup_insert_eq | subst items; apply lookup_first_occurrence].
  simpl. fold a. clearbody a.
  unfold AdjustPopup.confirm_adj. rewrite bind_run.
  erewrite adjust_quantity_present_run;
    [| by apply snapshot_keeps_cart | done | done | done].
  simpl. rewrite bind_run.
  erewrite refresh_cart_run by apply lookup_insert_eq. simpl.
  eexists. split; [done|]. apply snapshot_keeps_cart, lookup_insert_eq.
Qed.

Lemma adjust_popup_confirm_witness :
  ({[ 1%positive := [("Pear", 2); ("Apple", 10)] ]} : heap) !! _items cart
    = Some [("Pear", 2); ("Apple", 10)]
  ∧ within_cap (max_per_item cart) [("Pear", 2); ("Apple", 10)]
  ∧ [("Pear", 2); ("Apple", 10)] = [("Pear", 2)] ++ (("Apple", 10) :: [])
  ∧ ("Apple" ∉ [("Pear", 2)].*1)
  ∧ 1 ≤ AdjustPopup.qty_var
          (AdjustPopup.presses cart [AdjustPopup.Plus; AdjustPopup.Minus]
             {| AdjustPopup.qty_var := 10; AdjustPopup.alert := "";
                AdjustPopup.adj_win := true |})
      ≤ max_per_item cart.
Proof.
  assert (Hcap : within_cap (max_per_item cart) [("Pear", 2); ("Apple", 10)]).
  { unfold within_cap. repeat constructor; simpl; lia. }
  assert (Hpre : "Apple" ∉ [("Pear", 2)].*1).
  { simpl. rewrite list_elem_of_singleton. discriminate. }
  assert (Hl : ({[ 1%positive := [("Pear", 2); ("Apple", 10)] ]} : heap) !! _items cart
               = Some [("Pear", 2); ("Apple", 10)]) by reflexivity.
  split; [exact Hl|]. split; [exact Hcap|]. split; [reflexivity|].
  split; [exact Hpre|].
  apply (adjust_popup_confirm cart
           {| OrderWindow.cart_frame := []; OrderWindow.message_label := "" |}
           _ _ [("Pear", 2)] "Apple" 10 []
           [AdjustPopup.Plus; AdjustPopup.Minus] Hl Hcap eq_refl Hpre).
Defined.

(** ** The catalogue and the item list *)

Example lower_ex : lower "Apples & PEARS 12" = "apples & pears 12".
Proof. reflexivity. Qed.

Example contains_ex :
  contains "granny smith" "smith" = true ∧ contains "granny smith" "" = true
  ∧ contains "granny smith" "smiths" = false ∧ contains "" "" = true.
Proof. repeat split; reflexivity. Qed.

Example render_items_ex :
  Catalog.render_items
    (Catalog.load_items
       (Some [ {[ "name" := Catalog.Str "pear"; "category" := Catalog.Str "Fruit";
                  "tag" := Catalog.Str "Vegan" ]};
               {[ "name" := Catalog.Str "Bread"; "category" := Catalog.Str "Bakery" ]};
               {[ "name" := Catalog.Str "Apple"; "category" := Catalog.Str "Fruit";
                  "tag" := Catalog.Str "" ]} ]))
    " " Catalog.AtoZ "Fruit" "All"
  = Some [ Catalog.Item "Apple" "Category: Fruit" "Apple";
           Catalog.Item "pear" "Category: Fruit    Diet: Vegan" "pear" ].
Proof. vm_compute. reflexivity. Qed.

Lemma setdefault_lookup key (d : Catalog.row) k :
  Catalog.setdefault key d !! k
  = match d !! k with
    | Some v => Some v
    | None => if decide (k = key) then Some (Catalog.Str "") else None
    end.
Proof.
  unfold Catalog.setdefault. destruct (decide (k = key)) as [->|Hne].
  - destruct (d !! key) eqn:Hd; [by rewrite Hd|]. by rewrite lookup_insert_eq.
  - destruct (d !! key); [by destruct (d !! k)|].
    rewrite lookup_insert_ne by done. by destruct (d !! k).
Qed.

(** X19. [load_items] never raises: it returns no row when the file cannot be
    read, and otherwise the rows of the file in their order, where each of
    the keys "name", "category" and "tag" that a row lacks now has the
    empty string and every field the row had, be it [None], is kept. *)
Theorem load_items_rows (read : option (list Catalog.row)) :
  (read = None → Catalog.load_items read = [])
  ∧ ∀ items, read = Some items →
      length (Catalog.load_items read) = length items
      ∧ ∀ i r, items !! i = Some r →
          ∃ r', Catalog.load_items read !! i = Some r'
            ∧ ∀ key, r' !! key
                = match r !! key with
                  | Some v => Some v
                  | None =>
                      if bool_decide (key ∈ ["name"; "category"; "tag"])
                      then Some (Catalog.Str "") else None
                  end.
Proof.
  split; [by intros ->|]. intros items ->. simpl. split; [apply length_fmap|].
  intros i r Hi. eexists. rewrite list_lookup_fmap, Hi. simpl. split; [done|].
  intros key. rewrite !setdefault_lookup. destruct (r !! key); [done|].
  destruct (decide (key = "name")) as [->|Hname]; [reflexivity|].
  destruct (decide (key = "category")) as [->|Hcategory]; [reflexivity|].
  destruct (decide (key = "tag")) as [->|Htag]; [reflexivity|].
  rewrite bool_decide_eq_false_2; [done|].
  rewrite !elem_of_cons, elem_of_nil. tauto.
Qed.

(** *** The stable sort *)

Lemma ltb_irrefl k : String.ltb k k = false.
Proof.
  unfold String.ltb. pose proof (String.compare_antisym k k) as H.
  by destruct (String.compare k k).
Qed.

Lemma before_irrefl order k : Catalog.before order k k = false.
Proof. destruct order; apply ltb_irrefl. Qed.

Lemma before_in_order order k1 k2 :
  Catalog.before order k2 k1 = false ↔ in_order order k1 k2.
Proof.
  destruct order; simpl; unfold String.ltb, String.leb.
  - rewrite (String.compare_antisym k1 k2).
    destruct (String.compare k2 k1); simpl; intuition congruence.
  - rewrite (String.compare_antisym k2 k1).
    destruct (String.compare k1 k2); simpl; intuition congruence.
Qed.

Lemma before_asym order k1 k2 :
  Catalog.before order k1 k2 = true → Catalog.before order k2 k1 = false.
Proof.
  destruct order; simpl; unfold String.ltb.
  - rewrite (String.compare_antisym k2 k1). by destruct (String.compare k1 k2).
  - rewrite (String.compare_antisym k1 k2). by destruct (String.compare k2 k1).
Qed.

Lemma insert_sorted_perm order x l : Catalog.insert_sorted order x l ≡ₚ x :: l.
Proof.
  induction l as [|y rest IH]; simpl; [done|].
  destruct (Catalog.before order y.1 x.1); [|done].
  rewrite IH. apply Permutation_swap.
Qed.

Lemma stable_sort_perm order l : Catalog.stable_sort order l ≡ₚ l.
Proof.
  induction l as [|x rest IH]; simpl; [done|].
  by rewrite insert_sorted_perm, IH.
Qed.

Lemma insert_sorted_sorted order x l :
  Sorted.Sorted (λ a b, in_order order a.1 b.1) l →
  Sorted.Sorted (λ a b, in_order order a.1 b.1) (Catalog.insert_sorted order x l).
Proof.
  induction l as [|y rest IH]; simpl; intros Hs.
  - by repeat constructor.
  - destruct (Catalog.before order y.1 x.1) eqn:Hb.
    + apply Sorted.Sorted_inv in Hs as [Hrest Hhd].
      constructor; [by apply IH|].
      destruct rest as [|z rest]; simpl.
      * constructor. by apply before_in_order, before_asym.
      * destruct (Catalog.before order z.1 x.1).
        -- constructor. by apply Sorted.HdRel_inv in Hhd.
        -- constructor. by apply before_in_order, before_asym.
    + constructor; [done|]. constructor. by apply before_in_order.
Qed.

Lemma stable_sort_sorted order l :
  Sorted.Sorted (λ a b, in_order order a.1 b.1) (Catalog.stable_sort order l).
Proof.
  induction l as [|x rest IH]; simpl; [constructor|].
  by apply insert_sorted_sorted.
Qed.

Lemma insert_sorted_stable order x l (k : string) :
  filter (λ p : string * Catalog.row, p.1 = k) (Catalog.insert_sorted order x l)
  = filter (λ p : string * Catalog.row, p.1 = k) (x :: l).
Proof.
  induction l as [|y rest IH]; simpl; [done|].
  destruct (Catalog.before order y.1 x.1) eqn:Hb; [|done].
  assert (Hne : y.1 ≠ x.1).
  { intros Heq. rewrite Heq, before_irrefl in Hb. done. }
  rewrite (filter_cons _ y), IH, !(filter_cons _ x), !(filter_cons _ y).
  repeat case_decide; congruence.
Qed.

Lemma stable_sort_stable order l (k : string) :
  filter (λ p : string * Catalog.row, p.1 = k) (Catalog.stable_sort order l)
  = filter (λ p : string * Catalog.row, p.1 = k) l.
Proof.
  induction l as [|x rest IH]; simpl; [done|].
  by rewrite insert_sorted_stable, !filter_cons, IH.
Qed.

(** *** The comprehension of [render_items] *)

Section Comprehension.
Context (keyword selected_category selected_diet : string).

Local Abbreviation shown := (Catalog.shown keyword selected_category selected_diet).
Local Abbreviation comprehension :=
  (Catalog.comprehension keyword selected_category selected_diet).
Local Abbreviation name_of item :=
  (Catalog.lower_of (Catalog.get item "name" (Catalog.Str ""))).
Local Abbreviation category_of item :=
  (Catalog.lower_of (Catalog.get item "category" (Catalog.Str ""))).

Lemma shown_tag_total (item : Catalog.row) :
  ∃ b, (if Catalog.field_truthy (Catalog.get item "tag" Catalog.NoneField)
        then tag ← Catalog.lower_of (Catalog.get item "tag" Catalog.NoneField);
             Some (String.eqb tag (lower selected_diet))
        else Some false) = Some b.
Proof.
  destruct (Catalog.get item "tag" Catalog.NoneField) as [|t]; simpl; [eauto|].
  destruct (truthy t); eauto.
Qed.

Lemma shown_raises (item : Catalog.row) :
  shown item = None ↔
  name_of item = None
  ∨ ∃ n, name_of item = Some n ∧ contains n keyword = false
         ∧ category_of item = None.
Proof.
  unfold Catalog.shown.
  destruct (name_of item) as [n|]; simpl; [|by split; [left|]].
  destruct (contains n keyword) eqn:Hn; simpl.
  - destruct (negb _); [by split; [|intros [|(? & [= <-] & ? & _)]; congruence]|].
    destruct (String.eqb selected_diet "All");
      [by split; [|intros [|(? & [= <-] & ? & _)]; congruence]|].
    destruct (shown_tag_total item) as [b ->].
    by split; [|intros [|(? & [= <-] & ? & _)]; congruence].
  - destruct (category_of item) as [c|]; simpl.
    + destruct (contains c keyword); simpl;
        [|by split; [|intros [|(? & _ & _ & ?)]]].
      destruct (negb _); [by split; [|intros [|(? & _ & _ & ?)]]|].
      destruct (String.eqb selected_diet "All");
        [by split; [|intros [|(? & _ & _ & ?)]]|].
      destruct (shown_tag_total item) as [b ->].
      by split; [|intros [|(? & _ & _ & ?)]].
    + split; [|done]. intros _. right. by exists n.
Qed.

Lemma shown_has_texts (item : Catalog.row) :
  has_texts item → is_Some (shown item).
Proof.
  intros [[n Hn] [c Hc]]. destruct (shown item) eqn:Hs; [eauto|].
  apply shown_raises in Hs as [?|(? & _ & _ & ?)]; congruence.
Qed.

Lemma shown_name (item : Catalog.row) b :
  shown item = Some b → is_Some (name_of item).
Proof.
  intros Hs. destruct (name_of item) eqn:Hn; [eauto|].
  assert (shown item = None) by (apply shown_raises; by left). congruence.
Qed.

Lemma comprehension_Some items kept :
  comprehension items = Some kept →
  kept = filter (λ item, shown item = Some true) items
  ∧ Forall (λ item, is_Some (shown item)) items.
Proof.
  revert kept. induction items as [|item rest IH]; simpl; intros kept.
  - intros [= <-]. by split.
  - destruct (shown item) as [b|] eqn:Hs; simpl; [|done].
    destruct (comprehension rest) as [kept'|]; simpl; [|done].
    intros [= <-]. destruct (IH kept' eq_refl) as [-> Hall].
    split; [|constructor; eauto].
    rewrite filter_cons. destruct b.
    + by rewrite decide_True by done.
    + by rewrite decide_False by congruence.
Qed.

Lemma comprehension_None items :
  comprehension items = None ↔ Exists (λ item, shown item = None) items.
Proof.
  induction items as [|item rest IH]; simpl.
  - split; [done|]. intros H. inversion H.
  - rewrite Exists_cons, <- IH.
    destruct (shown item) as [b|]; simpl; [|by split; [left|]].
    destruct (comprehension rest); simpl; split; try done.
    + by intros [|].
    + by right.
Qed.

Lemma comprehension_total items :
  Forall has_texts items →
  comprehension items = Some (filter (λ item, shown item = Some true) items).
Proof.
  intros Hall. destruct (comprehension items) as [kept|] eqn:Hc.
  - by apply comprehension_Some in Hc as [-> _].
  - apply comprehension_None, Exists_exists in Hc as (item & Hin & Hs).
    rewrite Forall_forall in Hall.
    destruct (shown_has_texts item (Hall _ Hin)). congruence.
Qed.

End Comprehension.

(** *** Sorting and rendering the rows *)

Lemma sorted_rows order (L : list (string * Catalog.row)) :
  Forall (λ p, Catalog.sort_key p.2 = Some p.1) L →
  Sorted.Sorted (λ a b, in_order order a.1 b.1) L →
  Sorted.Sorted
    (λ a b, ∃ ka kb, Catalog.sort_key a = Some ka ∧ Catalog.sort_key b = Some kb
                     ∧ in_order order ka kb) L.*2.
Proof.
  induction L as [|p L IH]; simpl; intros Hinv Hs; [constructor|].
  apply Forall_cons in Hinv as [Hp Hinv].
  apply Sorted.Sorted_inv in Hs as [Hs Hhd].
  constructor; [by apply IH|].
  destruct L as [|p' L]; simpl; constructor.
  apply Sorted.HdRel_inv in Hhd. apply Forall_cons in Hinv as [Hp' _].
  by exists p.1, p'.1.
Qed.

Lemma filter_rows (L : list (string * Catalog.row)) k :
  Forall (λ p, Catalog.sort_key p.2 = Some p.1) L →
  (filter (λ p : string * Catalog.row, p.1 = k) L).*2
  = filter (λ x, Catalog.sort_key x = Some k) L.*2.
Proof.
  induction L as [|p L IH]; simpl; intros Hinv; [done|].
  apply Forall_cons in Hinv as [Hp Hinv].
  rewrite !filter_cons, Hp. simpl.
  destruct (decide (p.1 = k)) as [Heq|Hne].
  - rewrite decide_True by congruence. simpl. f_equal. by apply IH.
  - rewrite decide_False by congruence. by apply IH.
Qed.

Lemma sort_run order (l : list Catalog.row) :
  Forall (λ x, is_Some (Catalog.sort_key x)) l →
  ∃ rows,
    Catalog.sort order l = Some rows
    ∧ rows ≡ₚ l
    ∧ Sorted.Sorted
        (λ a b, ∃ ka kb, Catalog.sort_key a = Some ka
                         ∧ Catalog.sort_key b = Some kb ∧ in_order order ka kb)
        rows
    ∧ ∀ k, filter (λ x, Catalog.sort_key x = Some k) rows
           = filter (λ x, Catalog.sort_key x = Some k) l.
Proof.
  intros Hall.
  set (keyed := (λ x, (default "" (Catalog.sort_key x), x)) <$> l).
  assert (Hsnd : keyed.*2 = l).
  { unfold keyed. rewrite <- list_fmap_compose. apply list_fmap_id. }
  assert (Hinv : Forall (λ p, Catalog.sort_key p.2 = Some p.1) keyed).
  { unfold keyed. apply Forall_fmap. eapply Forall_impl; [exact Hall|].
    intros x [k Hk]. simpl. by rewrite Hk. }
  assert (HmapM : mapM (λ x, k ← Catalog.sort_key x; Some (k, x)) l = Some keyed).
  { apply mapM_Some_2. unfold keyed. apply Forall2_fmap_r, Forall_Forall2_diag.
    eapply Forall_impl; [exact Hall|]. intros x [k Hk]. simpl. by rewrite Hk. }
  assert (Hinv' : Forall (λ p, Catalog.sort_key p.2 = Some p.1)
                    (Catalog.stable_sort order keyed)).
  { by rewrite stable_sort_perm. }
  exists (Catalog.stable_sort order keyed).*2. split_and!.
  - unfold Catalog.sort. by rewrite HmapM.
  - by rewrite stable_sort_perm, Hsnd.
  - apply sorted_rows; [done|]. apply stable_sort_sorted.
  - intros k. rewrite <- filter_rows by done.
    rewrite stable_sort_stable, filter_rows by done. by rewrite Hsnd.
Qed.

Lemma render_rows_run (rows : list Catalog.row) :
  Forall (λ x, is_Some (Catalog.sort_key x)) rows →
  ∃ out, mapM Catalog.render_row rows = Some out ∧ length out = length rows.
Proof.
  intros Hall.
  assert (Hsome : is_Some (mapM Catalog.render_row rows)).
  { apply mapM_is_Some. eapply Forall_impl; [exact Hall|].
    intros x [k Hk]. unfold Catalog.render_row, Catalog.sort_key in *.
    simpl. rewrite Hk. simpl. eauto. }
  destruct Hsome as [out Hout]. exists out. split; [done|].
  symmetry. by apply length_mapM in Hout.
Qed.

Lemma render_items_run items search order selected_category selected_diet kept :
  Catalog.comprehension (lower (strip search)) selected_category selected_diet items
    = Some kept →
  ∃ rows out,
    Catalog.render_items items search order selected_category selected_diet
      = Some out
    ∧ rows ≡ₚ kept
    ∧ Sorted.Sorted
        (λ a b, ∃ ka kb, Catalog.sort_key a = Some ka
                         ∧ Catalog.sort_key b = Some kb ∧ in_order order ka kb)
        rows
    ∧ (∀ k, filter (λ x, Catalog.sort_key x = Some k) rows
            = filter (λ x, Catalog.sort_key x = Some k) kept)
    ∧ (rows = [] → out = [Catalog.Notice "No items found."])
    ∧ (rows ≠ [] →
         mapM Catalog.render_row rows = Some out ∧ length out = length rows).
Proof.
  intros Hc.
  assert (Hkeys : Forall (λ x, is_Some (Catalog.sort_key x)) kept).
  { destruct (comprehension_Some _ _ _ _ _ Hc) as [-> _].
    apply Forall_forall. intros x [Hx _]%list_elem_of_filter.
    by apply shown_name in Hx. }
  destruct (sort_run order kept Hkeys) as (rows & Hsort & Hperm & Hsorted & Hstable).
  assert (Hkeys' : Forall (λ x, is_Some (Catalog.sort_key x)) rows)
    by by rewrite Hperm.
  destruct (render_rows_run rows Hkeys') as (out & Hout & Hlen).
  unfold Catalog.render_items. rewrite Hc. simpl. rewrite Hsort. simpl.
  destruct rows as [|row rows].
  - exists [], [Catalog.Notice "No items found."]. by split_and!.
  - exists (row :: rows), out. by split_and!.
Qed.

(** X20. Over a catalogue whose rows have a name and a category, [render_items]
    does not raise, and the list shows exactly the rows that pass the
    three tests of the comprehension, each as often as the catalogue has
    it: ordered by lower-case name, upwards for "A to Z" and downwards for
    "Z to A", rows with the same lower-case name in the order of the
    catalogue; when no row passes, the list shows "No items found.". *)
Theorem render_items_shows items search order selected_category selected_diet :
  Forall has_texts items →
  ∃ rows out,
    Catalog.render_items items search order selected_category selected_diet
      = Some out
    ∧ rows ≡ₚ filter (λ item, Catalog.shown (lower (strip search))
                                selected_category selected_diet item = Some true)
                     items
    ∧ Sorted.Sorted
        (λ a b, ∃ ka kb, Catalog.sort_key a = Some ka
                         ∧ Catalog.sort_key b = Some kb ∧ in_order order ka kb)
        rows
    ∧ (∀ k, filter (λ x, Catalog.sort_key x = Some k) rows
            = filter (λ x, Catalog.sort_key x = Some k)
                (filter (λ item, Catalog.shown (lower (strip search))
                                   selected_category selected_diet item = Some true)
                        items))
    ∧ (rows = [] → out = [Catalog.Notice "No items found."])
    ∧ (rows ≠ [] →
         mapM Catalog.render_row rows = Some out ∧ length out = length rows).
Proof.
  intros Hall. apply render_items_run. by apply comprehension_total.
Qed.

Lemma render_items_shows_witness :
  Forall has_texts
    [ ({[ "name" := Catalog.Str "pear"; "category" := Catalog.Str "Fruit" ]}
        : Catalog.row);
      {[ "name" := Catalog.Str "Apple"; "category" := Catalog.Str "Fruit" ]} ]
  ∧ ∃ rows out,
      Catalog.render_items
        [ {[ "name" := Catalog.Str "pear"; "category" := Catalog.Str "Fruit" ]};
          {[ "name" := Catalog.Str "Apple"; "category" := Catalog.Str "Fruit" ]} ]
        "P" Catalog.ZtoA "All" "All" = Some out
      ∧ rows ≡ₚ filter (λ item, Catalog.shown (lower (strip "P")) "All" "All" item
                                = Some true)
                  [ {[ "name" := Catalog.Str "pear"; "category" := Catalog.Str "Fruit" ]};
                    {[ "name" := Catalog.Str "Apple"; "category" := Catalog.Str "Fruit" ]} ].
Proof.
  assert (Hall : Forall has_texts
    [ ({[ "name" := Catalog.Str "pear"; "category" := Catalog.Str "Fruit" ]}
        : Catalog.row);
      {[ "name" := Catalog.Str "Apple"; "category" := Catalog.Str "Fruit" ]} ]).
  { repeat constructor; vm_compute; eauto. }
  split; [exact Hall|].
  destruct (render_items_shows _ "P" Catalog.ZtoA "All" "All" Hall)
    as (rows & out & Hrun & Hperm & _).
  by exists rows, out.
Defined.

(** X21. [render_items] raises exactly when some row of the catalogue has no
    string as its name, or has no string as its category while the keyword
    is not in its name: the keys that [load_items] adds do not replace a
    field that is [None]. *)
Theorem render_items_raises items search order selected_category selected_diet :
  Catalog.render_items items search order selected_category selected_diet = None
  ↔ Exists
      (λ item,
         Catalog.lower_of (Catalog.get item "name" (Catalog.Str "")) = None
         ∨ ∃ n, Catalog.lower_of (Catalog.get item "name" (Catalog.Str "")) = Some n
                ∧ contains n (lower (strip search)) = false
                ∧ Catalog.lower_of (Catalog.get item "category" (Catalog.Str ""))
                  = None)
      items.
Proof.
  split.
  - intros Hnone.
    destruct (Catalog.comprehension (lower (strip search)) selected_category
                selected_diet items) as [kept|] eqn:Hc.
    + destruct (render_items_run _ _ order _ _ _ Hc) as (? & ? & Hrun & _).
      congruence.
    + apply comprehension_None in Hc. eapply Exists_impl; [exact Hc|].
      intros item. apply shown_raises.
  - intros Hbad. unfold Catalog.render_items.
    assert (Catalog.comprehension (lower (strip search)) selected_category
              selected_diet items = None) as ->; [|done].
    apply comprehension_None. eapply Exists_impl; [exact Hbad|].
    intros item. apply shown_raises.
Qed.

Example render_items_short_row :
  Catalog.render_items
    (Catalog.load_items
       (Some [ {[ "name" := Catalog.Str "Apple"; "category" := Catalog.NoneField;
                  "tag" := Catalog.NoneField ]} ]))
    "pear" Catalog.AtoZ "All" "All" = None.
Proof. vm_compute. reflexivity. Qed.

Lemma contains_empty s : contains s "" = true.
Proof. by destruct s. Qed.

Lemma shown_unfiltered (item : Catalog.row) :
  is_Some (Catalog.sort_key item) → Catalog.shown "" "All" "All" item = Some true.
Proof.
  intros [n Hn]. unfold Catalog.shown, Catalog.sort_key in *.
  rewrite Hn. simpl. by rewrite contains_empty.
Qed.

(** X22. With nothing in the search box but whitespace and both menus on "All",
    every row of the catalogue that has a name is shown, once, in the
    chosen order. *)
Theorem render_items_unfiltered items search order :
  Forall (λ item, is_Some (Catalog.sort_key item)) items → blank search →
  ∃ rows out,
    Catalog.render_items items search order "All" "All" = Some out
    ∧ rows ≡ₚ items
    ∧ Sorted.Sorted
        (λ a b, ∃ ka kb, Catalog.sort_key a = Some ka
                         ∧ Catalog.sort_key b = Some kb ∧ in_order order ka kb)
        rows
    ∧ (rows ≠ [] →
         mapM Catalog.render_row rows = Some out ∧ length out = length items).
Proof.
  intros Hall Hblank.
  assert (Hkw : lower (strip search) = "").
  { unfold blank in Hblank. by destruct (strip search). }
  assert (Hc : Catalog.comprehension (lower (strip search)) "All" "All" items
               = Some items).
  { rewrite Hkw. clear -Hall. induction Hall as [|item rest Hitem _ IH]; [done|].
    simpl. by rewrite (shown_unfiltered _ Hitem), IH. }
  destruct (render_items_run _ _ order _ _ _ Hc)
    as (rows & out & Hrun & Hperm & Hsorted & _ & _ & Hout).
  exists rows, out. split_and!; [done..|].
  intros Hne. destruct (Hout Hne) as [? Hlen]. split; [done|].
  by rewrite Hlen, Hperm.
Qed.

Lemma render_items_unfiltered_witness :
  Forall (λ item, is_Some (Catalog.sort_key item))
    [ ({[ "name" := Catalog.Str "pear" ]} : Catalog.row);
      {[ "name" := Catalog.Str "Apple"; "category" := Catalog.NoneField ]} ]
  ∧ blank "  "
  ∧ ∃ (rows : list Catalog.row) out,
      Catalog.render_items
        [ {[ "name" := Catalog.Str "pear" ]};
          {[ "name" := Catalog.Str "Apple"; "category" := Catalog.NoneField ]} ]
        "  " Catalog.AtoZ "All" "All" = Some out
      ∧ rows ≡ₚ [ {[ "name" := Catalog.Str "pear" ]};
                  {[ "name" := Catalog.Str "Apple"; "category" := Catalog.NoneField ]} ].
Proof.
  assert (Hall : Forall (λ item, is_Some (Catalog.sort_key item))
    [ ({[ "name" := Catalog.Str "pear" ]} : Catalog.row);
      {[ "name" := Catalog.Str "Apple"; "category" := Catalog.NoneField ]} ]).
  { repeat constructor; vm_compute; eauto. }
  assert (Hblank : blank "  ") by reflexivity.
  split; [exact Hall|]. split; [exact Hblank|].
  destruct (render_items_unfiltered _ "  " Catalog.AtoZ Hall Hblank)
    as (rows & out & Hrun & Hperm & _).
  by exists rows, out.
Defined.
